(** * DiceCrack: the job engine of [app.py]

    A shallow embedding of the seed-search service: the hash utilities
    ([extract_roll_from_hmac], [calculate_dice_roll]), the wordlist reader
    ([read_wordlist_from_file]), the request handler that creates jobs
    ([start_process]) and the background worker ([process_job]) running
    against the pause and resume handlers.

    Conventions.
    - A Python [str] is a list of Unicode code points ([pystr]); [py "..."]
      writes a literal.  [bytes] is a list of [Byte.byte].
    - A Python [float] is kept as the exact rational it is computed from
      ([Q]); the source performs one division or multiplication per value,
      and the float is the double nearest to the rational shown here.
    - A raised exception is [None] (or a dedicated constructor) in the
      result.
    - Library calls whose tables are not part of the repository (SHA-256,
      HMAC-SHA512, [str.lower], [int] on decimal text, zip and gzip
      decoding) are the methods of the class [PyLib]. *)

From Stdlib Require Import ZArith QArith List Lia Bool DecimalString.
From Stdlib Require Import Strings.String Strings.Ascii Strings.Byte.
From Stdlib Require DecimalZ.
From stdpp Require Import gmap list.
From Equations Require Import Equations.
Import ListNotations.

Close Scope Q_scope.

(** ** Python strings *)

Abbreviation pystr := (list N).
Abbreviation bytes := (list Byte.byte).

Definition py (s : string) : pystr :=
  map (fun b => Byte.to_N b) (list_byte_of_string s).

(** [s[a:b]] for [0 <= a <= b]: slicing clamps at the end of [s]. *)
Definition slice (s : pystr) (a b : nat) : pystr := take (b - a) (drop a s).

(** [str(n)] for an [int]. *)
Definition str_of_int (n : Z) : pystr := py (NilZero.string_of_int (Z.to_int n)).

(** ** Hexadecimal text

    [hex_digit] is the value of one of [0-9a-fA-F]; [int16] is
    [int(s, 16)] on strings of such digits (and [None], the [ValueError],
    on the empty string).  Python's [int] also accepts a sign, a [0x]
    prefix, underscores, blanks and non-ASCII digits; the properties below
    quantify over strings of hex digits only ([is_hex]), so that part of
    its grammar is left out: on any other string [int16] answers [None]. *)

Definition hex_digit (c : N) : option Z :=
  if ((48 <=? c) && (c <=? 57))%N then Some (Z.of_N c - 48)%Z
  else if ((97 <=? c) && (c <=? 102))%N then Some (Z.of_N c - 87)%Z
  else if ((65 <=? c) && (c <=? 70))%N then Some (Z.of_N c - 55)%Z
  else None.

Definition is_hex_digit (c : N) : bool :=
  match hex_digit c with Some _ => true | None => false end.

Definition is_hex (s : pystr) : bool := forallb is_hex_digit s.

Fixpoint int16_acc (acc : Z) (s : pystr) : option Z :=
  match s with
  | [] => Some acc
  | c :: s' =>
      match hex_digit c with
      | Some d => int16_acc (16 * acc + d)%Z s'
      | None => None
      end
  end.

Definition int16 (s : pystr) : option Z :=
  match s with
  | [] => None
  | _ => int16_acc 0 s
  end.

(** ** [extract_roll_from_hmac]

    [[
    pos = 0
    roll = 10001
    while roll >= 10000 and pos + 5 <= len(hmac_hex):
        roll = int(hmac_hex[pos:pos+5], 16)
        pos += 5
    return (roll % 10000) / 100.0
    ]]

    [scan_chunks] is the [while] loop started at [(pos, roll)]; it ends
    because [len(hmac_hex) - pos] decreases.  [None] is the [ValueError] of
    [int]. *)

Definition inspect {A : Type} (a : A) : {b : A | a = b} := exist _ a eq_refl.

Equations? scan_chunks (hmac_hex : pystr) (pos : nat) (roll : Z) : option Z
  by wf (length hmac_hex - pos) lt :=
  scan_chunks hmac_hex pos roll
    with inspect ((10000 <=? roll)%Z && (pos + 5 <=? length hmac_hex)) := {
    | exist _ true Hcond with int16 (slice hmac_hex pos (pos + 5)) := {
        | Some r => scan_chunks hmac_hex (pos + 5) r
        | None => None }
    | exist _ false _ => Some roll }.
Proof.
  apply andb_prop in Hcond as [_ Hlen].
  apply Nat.leb_le in Hlen. lia.
Qed.

Definition roll_value (roll : Z) : Q := (inject_Z (roll mod 10000) / 100)%Q.

Definition extract_roll_from_hmac (hmac_hex : pystr) : option Q :=
  match scan_chunks hmac_hex 0 10001 with
  | Some roll => Some (roll_value roll)
  | None => None
  end.


(** ** Text helpers of the reader

    [str.strip()] removes the characters for which [str.isspace] holds;
    [str.splitlines()] cuts at the line boundaries of the [str] type, a
    carriage return followed by a line feed counting once, and yields no
    final empty line. *)

Definition is_space (c : N) : bool :=
  ((9 <=? c) && (c <=? 13) || (28 <=? c) && (c <=? 32) || (c =? 133)
   || (c =? 160) || (c =? 5760) || (8192 <=? c) && (c <=? 8202)
   || (c =? 8232) || (c =? 8233) || (c =? 8239) || (c =? 8287)
   || (c =? 12288))%N.

Fixpoint lstrip (s : pystr) : pystr :=
  match s with
  | c :: s' => if is_space c then lstrip s' else s
  | [] => []
  end.

Definition strip (s : pystr) : pystr := rev (lstrip (rev (lstrip s))).

Definition is_linebreak (c : N) : bool :=
  ((10 <=? c) && (c <=? 13) || (28 <=? c) && (c <=? 30) || (c =? 133)
   || (c =? 8232) || (c =? 8233))%N.

Fixpoint splitlines_from (cur : pystr) (s : pystr) : list pystr :=
  match s with
  | [] => match cur with [] => [] | _ => [rev cur] end
  | c :: s' =>
      if is_linebreak c then
        rev cur ::
          match s' with
          | c' :: s'' =>
              if ((c =? 13) && (c' =? 10))%N then splitlines_from [] s''
              else splitlines_from [] s'
          | [] => []
          end
      else splitlines_from (c :: cur) s'
  end.

Definition splitlines (s : pystr) : list pystr := splitlines_from [] s.

Definition nonempty (s : pystr) : bool :=
  match s with [] => false | _ => true end.

(** [[ln.strip() for ln in lines if ln and ln.strip()]] *)
Definition clean_lines (lines : list pystr) : list pystr :=
  map strip (List.filter (fun ln => nonempty ln && nonempty (strip ln)) lines).

Fixpoint starts_with (s prefix : pystr) : bool :=
  match prefix, s with
  | [], _ => true
  | p :: prefix', c :: s' => (c =? p)%N && starts_with s' prefix'
  | _ :: _, [] => false
  end.

Definition ends_with (s suffix : pystr) : bool :=
  starts_with (rev s) (rev suffix).

(** [raw.decode("latin-1")] never fails; [raw.decode("utf-8")] is the
    strict decoder: well-formed sequences only (no overlong forms, no
    surrogates, nothing above U+10FFFF), [None] being the
    [UnicodeDecodeError]. *)

Definition latin1_decode (raw : bytes) : pystr := map Byte.to_N raw.

Definition is_cont (lo hi b : N) : bool := ((lo <=? b) && (b <=? hi))%N.

Fixpoint utf8_decode_N (bs : list N) : option pystr :=
  match bs with
  | [] => Some []
  | b0 :: r0 =>
      if (b0 <? 128)%N then option_map (cons b0) (utf8_decode_N r0)
      else if ((194 <=? b0) && (b0 <=? 223))%N then
        match r0 with
        | b1 :: r1 =>
            if is_cont 128 191 b1
            then option_map (cons ((b0 - 192) * 64 + (b1 - 128))%N)
                            (utf8_decode_N r1)
            else None
        | _ => None
        end
      else if ((224 <=? b0) && (b0 <=? 239))%N then
        match r0 with
        | b1 :: b2 :: r2 =>
            if is_cont (if (b0 =? 224)%N then 160 else 128)
                       (if (b0 =? 237)%N then 159 else 191) b1
               && is_cont 128 191 b2
            then option_map
                   (cons ((b0 - 224) * 4096 + (b1 - 128) * 64 + (b2 - 128))%N)
                   (utf8_decode_N r2)
            else None
        | _ => None
        end
      else if ((240 <=? b0) && (b0 <=? 244))%N then
        match r0 with
        | b1 :: b2 :: b3 :: r3 =>
            if is_cont (if (b0 =? 240)%N then 144 else 128)
                       (if (b0 =? 244)%N then 143 else 191) b1
               && is_cont 128 191 b2 && is_cont 128 191 b3
            then option_map
                   (cons ((b0 - 240) * 262144 + (b1 - 128) * 4096
                          + (b2 - 128) * 64 + (b3 - 128))%N)
                   (utf8_decode_N r3)
            else None
        | _ => None
        end
      else None
  end.

Definition utf8_decode (raw : bytes) : option pystr :=
  utf8_decode_N (map Byte.to_N raw).

(** [[
    try: text = raw.decode("utf-8")
    except UnicodeDecodeError: text = raw.decode("latin-1")
    ]] *)
Definition decode_text (raw : bytes) : pystr :=
  match utf8_decode raw with
  | Some text => text
  | None => latin1_decode raw
  end.

(** ** Jobs

    The per-job dictionary of the [jobs] table, the lock apart (the lock
    is part of the machine state below). *)

Inductive job_status :=
  Queued | Running | Paused | Completed | FinishedNoMatch.

Record job := {
  processed : nat;
  total : nat;
  done : bool;
  paused : bool;
  speed_per_min : Q;
  eta_seconds : option Z;
  match_ : option pystr;
  roll : option Q;
  start_time : option Q;
  status : job_status
}.

(** The dictionary literal stored by [start_process]. *)
Definition new_job (n : nat) : job :=
  {| processed := 0; total := n; done := false; paused := false;
     speed_per_min := 0%Q; eta_seconds := None; match_ := None;
     roll := None; start_time := None; status := Queued |}.

Definition terminal (st : job_status) : bool :=
  match st with
  | Completed | FinishedNoMatch => true
  | _ => false
  end.

(** ** The wordlist reader and the start-job handler *)

Inductive content := Bytes (b : bytes) | Str (s : pystr).

Record file_storage := {
  filename : option pystr;
  stream : content
}.

(** What the code uses of an opened [zipfile.ZipFile]: [namelist()] and,
    for a name, [z.open(name).read()], [None] when either raises. *)
Record archive := {
  namelist : list pystr;
  open_read : pystr -> option bytes
}.

Inductive result (A : Type) := Returned (a : A) | Raised.
Arguments Returned {A} a.
Arguments Raised {A}.

Record request := {
  form_hashedSeed : option pystr;
  form_clientSeed : option pystr;
  form_nonce : option pystr;
  form_speed : option pystr;
  form_wordlistText : option pystr;
  files_wordlist : option file_storage
}.

Inductive response :=
| Json400 (error : pystr)
| Json200 (job_id : pystr)
| Unhandled.

(** The arguments of the [threading.Thread] started for a job. *)
Record launch := {
  job_id : pystr;
  wordlist_lines : list pystr;
  target_hash : pystr;
  client_seed : pystr;
  nonce : Z;
  max_speed : Z
}.

(** [request.form.get(key, default).strip()], the default being the empty
    string. *)
Definition form_get_strip (field : option pystr) : pystr :=
  strip (match field with Some v => v | None => [] end).

(** The library calls of the program, [None] standing for a raised
    exception:
    - [sha256_hex s] is [hashlib.sha256(s.encode()).hexdigest()];
    - [hmac_sha512_hex key message] is
      [hmac.new(key.encode(), message.encode(), hashlib.sha512).hexdigest()];
    - [str_lower s] is [s.lower()];
    - [py_int s] is [int(s)];
    - [zip_open stream] is [zipfile.ZipFile(stream)];
    - [gzip_read_text stream] is [gzip.open(stream, mode='rt',
      encoding='utf-8', errors='ignore').read()]. *)
Class PyLib := {
  sha256_hex : pystr -> option pystr;
  hmac_sha512_hex : pystr -> pystr -> option pystr;
  str_lower : pystr -> pystr;
  py_int : pystr -> option Z;
  zip_open : content -> option archive;
  gzip_read_text : content -> option pystr
}.

Section Reader.

Context {lib : PyLib}.

(** The [for name in z.namelist()] loop, [lines] being the list it
    extends. *)
Fixpoint zip_loop (z : archive) (names : list pystr) (lines : list pystr)
  : list pystr :=
  match names with
  | [] => lines
  | name :: names' =>
      if ends_with name (py "/") then zip_loop z names' lines
      else
        match open_read z name with
        | Some raw => zip_loop z names' (lines ++ splitlines (decode_text raw))
        | None => zip_loop z names' lines
        end
  end.

Definition read_wordlist_from_file (file_storage : file_storage)
  : result (list pystr) :=
  let filename :=
    str_lower (match filename file_storage with Some f => f | None => [] end) in
  if ends_with filename (py ".zip") then
    match zip_open (stream file_storage) with
    | Some z => Returned (clean_lines (zip_loop z (namelist z) []))
    | None => Raised
    end
  else if ends_with filename (py ".gz") then
    match gzip_read_text (stream file_storage) with
    | Some text => Returned (clean_lines (splitlines text))
    | None =>
        match stream file_storage with
        | Bytes raw => Returned (clean_lines (splitlines (decode_text raw)))
        | Str _ => Raised
        end
    end
  else
    let text :=
      match stream file_storage with
      | Bytes content => decode_text content
      | Str content => content
      end in
    Returned (clean_lines (splitlines text)).

(** [[ln.strip() for ln in text.splitlines() if ln.strip()]] *)
Definition inline_lines (text : pystr) : list pystr :=
  map strip (List.filter (fun ln => nonempty (strip ln)) (splitlines text)).

(** The "Read wordlist" part of [start_process]: the uploaded file when
    there is one, else the inline text; [None] when the request has
    neither. *)
Definition request_wordlist (req : request) : option (result (list pystr)) :=
  match files_wordlist req with
  | Some file => Some (read_wordlist_from_file file)
  | None =>
      match form_wordlistText req with
      | Some text => Some (Returned (inline_lines text))
      | None => None
      end
  end.

(** [start_process], on the request [req], with [job_id] the text of the
    [uuid.uuid4()] it draws and [jobs] the table before the call.  It
    answers with the response, the table after the call and the worker
    thread it started, if any.  An exception that leaves the handler is
    [Unhandled]. *)
Definition start_process (req : request) (job_id : pystr)
    (jobs : gmap (list N) job)
  : response * gmap (list N) job * option launch :=
  let hashedSeed := form_get_strip (form_hashedSeed req) in
  let clientSeed := form_get_strip (form_clientSeed req) in
  let nonce_str := form_get_strip (form_nonce req) in
  let speed_str := form_get_strip (form_speed req) in
  if negb (nonempty hashedSeed) || negb (nonempty clientSeed)
     || negb (nonempty nonce_str)
  then (Json400 (py "missing required fields (hashedSeed, clientSeed, nonce)"),
        jobs, None)
  else
    match py_int nonce_str with
    | None => (Json400 (py "nonce must be an integer"), jobs, None)
    | Some nonce =>
        let max_speed :=
          if nonempty speed_str then
            match py_int speed_str with Some v => v | None => 20000%Z end
          else 20000%Z in
        match request_wordlist req with
        | None => (Json400 (py "no wordlist provided"), jobs, None)
        | Some Raised => (Unhandled, jobs, None)
        | Some (Returned wordlist_lines) =>
            (Json200 job_id,
             <[job_id := new_job (length wordlist_lines)]> jobs,
             Some {| job_id := job_id;
                     wordlist_lines := wordlist_lines;
                     target_hash := hashedSeed;
                     client_seed := clientSeed;
                     nonce := nonce;
                     max_speed := max_speed |})
        end
    end.

End Reader.

(** ** The worker against the pause and resume handlers

    One job, its worker thread ([process_job]) and the request threads of
    [pause_job] and [resume_job], interleaved one statement group at a
    time.  The job lock is held by at most one thread; a thread that
    reaches [with job['lock']] while the lock is taken cannot step. *)

Inductive owner := OWorker | OHandler (i : nat).

(** Where the worker stands; [i] counts the candidates the [for] loop has
    already taken, so the current candidate is [wordlist_lines[i]] and
    [idx = i + 1]. *)
Inductive wpc :=
| WStart                (* thread started, body of [process_job] not begun *)
| WFor (i : nat)        (* at the [for] header *)
| WCheck (i : nat)      (* lock held, before [if job['paused']] *)
| WSpin (i : nat)       (* lock held, at [while job['paused']] *)
| WBody (i : nat)       (* lock released, before the digest and telemetry *)
| WCompare (i : nat)    (* before the comparison with the target *)
| WDone                 (* [process_job] has returned *)
| WCrashed.             (* the thread died on an exception *)

Inductive req_kind := Pause | Resume.

(** Where a request thread stands. *)
Inductive hpc :=
| HWait      (* before [with job['lock']] *)
| HFlag      (* lock held, before [job['paused'] = ...] *)
| HStatus    (* lock held, before [job['status'] = ...] *)
| HDone.     (* lock released, response sent *)

Record state := {
  st_job : job;
  st_lock : option owner;
  st_worker : wpc;
  st_handlers : list (req_kind * hpc)
}.

Inductive label :=
| Worker (now : Q)       (* the worker steps; [now] is what the clock shows *)
| Arrive (r : req_kind)  (* a pause or resume request comes in *)
| Handler (i : nat).     (* the [i]-th request thread steps *)

Definition Qpositive (q : Q) : bool := (0 <? Qnum q)%Z.

(** [int(x)] on a float: truncation toward zero. *)
Definition int_of_Q (q : Q) : Z := Z.quot (Qnum q) (Z.pos (Qden q)).

Section Worker.

Context {lib : PyLib}.

Definition calculate_dice_roll (server_seed client_seed : pystr) (nonce : Z)
  : option Q :=
  let msg := client_seed ++ py ":" ++ str_of_int nonce in
  match hmac_sha512_hex server_seed msg with
  | Some h => extract_roll_from_hmac h
  | None => None
  end.

(** The arguments of [process_job]. *)
Variable args : launch.

(** [[
    try: hashed_candidate = sha256_hex(candidate)
    except Exception: hashed_candidate = (the empty string)
    ]] *)
Definition hashed_candidate (candidate : pystr) : pystr :=
  match sha256_hex candidate with
  | Some h => h
  | None => []
  end.

(** [hashed_candidate.lower() == target_hash.lower()] *)
Definition digest_matches (candidate : pystr) : bool :=
  bool_decide (str_lower (hashed_candidate candidate)
               = str_lower (target_hash args)).

(** Lines 113 to 121. *)
Definition job_started (now : Q) (j : job) : job :=
  {| processed := 0; total := length (wordlist_lines args); done := false;
     paused := paused j; speed_per_min := 0%Q; eta_seconds := None;
     match_ := None; roll := None; start_time := Some now;
     status := status j |}.

(** Lines 141 to 154, for the candidate number [idx], the job having
    started at [t0]. *)
Definition job_progress (now t0 : Q) (idx : nat) (j : job) : job :=
  let elapsed := (now - t0)%Q in
  let speed :=
    if Qpositive elapsed
    then ((inject_Z (Z.of_nat idx) / elapsed) * 60)%Q
    else speed_per_min j in
  let remaining := (Z.of_nat (length (wordlist_lines args)) - Z.of_nat idx)%Z in
  {| processed := idx; total := total j; done := done j;
     paused := paused j; speed_per_min := speed;
     eta_seconds :=
       if Qpositive speed
       then Some (int_of_Q ((inject_Z remaining / speed) * 60)%Q)
       else None;
     match_ := match_ j; roll := roll j; start_time := start_time j;
     status := status j |}.

(** Line 141 alone. *)
Definition job_counted (idx : nat) (j : job) : job :=
  {| processed := idx; total := total j; done := done j;
     paused := paused j; speed_per_min := speed_per_min j;
     eta_seconds := eta_seconds j; match_ := match_ j; roll := roll j;
     start_time := start_time j; status := status j |}.

(** Lines 159 to 162. *)
Definition job_found (candidate : pystr) (r : Q) (j : job) : job :=
  {| processed := processed j; total := total j; done := true;
     paused := paused j; speed_per_min := speed_per_min j;
     eta_seconds := eta_seconds j; match_ := Some candidate;
     roll := Some r; start_time := start_time j; status := Completed |}.

(** Lines 173 to 177. *)
Definition job_exhausted (j : job) : job :=
  {| processed := processed j; total := total j; done := true;
     paused := paused j; speed_per_min := speed_per_min j;
     eta_seconds := Some 0%Z; match_ := None; roll := None;
     start_time := start_time j; status := FinishedNoMatch |}.

(** The two writes of a request thread. *)
Definition job_set_paused (b : bool) (j : job) : job :=
  {| processed := processed j; total := total j; done := done j;
     paused := b; speed_per_min := speed_per_min j;
     eta_seconds := eta_seconds j; match_ := match_ j; roll := roll j;
     start_time := start_time j; status := status j |}.

Definition job_set_status (st : job_status) (j : job) : job :=
  {| processed := processed j; total := total j; done := done j;
     paused := paused j; speed_per_min := speed_per_min j;
     eta_seconds := eta_seconds j; match_ := match_ j; roll := roll j;
     start_time := start_time j; status := st |}.

Definition flag_of (r : req_kind) : bool :=
  match r with Pause => true | Resume => false end.

Definition status_of (r : req_kind) : job_status :=
  match r with Pause => Paused | Resume => Running end.

Definition move (j : job) (lk : option owner) (pc : wpc) (s : state) : state :=
  {| st_job := j; st_lock := lk; st_worker := pc;
     st_handlers := st_handlers s |}.

(** One step of [process_job].  The writes of a group are consecutive
    statements of the source with no lock operation between them; the
    throttle [time.sleep(60.0 / max_speed)] between [WCompare] and the
    next [WFor] changes nothing of the state. *)
Definition worker_step (now : Q) (s : state) : option state :=
  let j := st_job s in
  match st_worker s with
  | WStart => Some (move (job_started now j) (st_lock s) (WFor 0) s)
  | WFor i =>
      match wordlist_lines args !! i with
      | None => Some (move (job_exhausted j) (st_lock s) WDone s)
      | Some _ =>
          match st_lock s with
          | None => Some (move j (Some OWorker) (WCheck i) s)
          | Some _ => None
          end
      end
  | WCheck i =>
      if paused j then Some (move j (st_lock s) (WSpin i) s)
      else Some (move j None (WBody i) s)
  | WSpin i =>
      if paused j then Some s
      else Some (move j None (WBody i) s)
  | WBody i =>
      match start_time j with
      | Some t0 =>
          Some (move (job_progress now t0 (S i) j) (st_lock s) (WCompare i) s)
      | None => Some (move (job_counted (S i) j) (st_lock s) WCrashed s)
      end
  | WCompare i =>
      match wordlist_lines args !! i with
      | None => None
      | Some candidate =>
          if digest_matches candidate then
            match calculate_dice_roll candidate (client_seed args) (nonce args) with
            | Some r => Some (move (job_found candidate r j) (st_lock s) WDone s)
            | None => Some (move j (st_lock s) WCrashed s)
            end
          else Some (move j (st_lock s) (WFor (S i)) s)
      end
  | WDone | WCrashed => None
  end.

(** One step of the [i]-th request thread ([pause_job] or [resume_job]
    after its [jobs.get]). *)
Definition handler_step (i : nat) (s : state) : option state :=
  match st_handlers s !! i with
  | Some (r, HWait) =>
      match st_lock s with
      | None =>
          Some {| st_job := st_job s; st_lock := Some (OHandler i);
                  st_worker := st_worker s;
                  st_handlers := <[i := (r, HFlag)]> (st_handlers s) |}
      | Some _ => None
      end
  | Some (r, HFlag) =>
      Some {| st_job := job_set_paused (flag_of r) (st_job s);
              st_lock := st_lock s; st_worker := st_worker s;
              st_handlers := <[i := (r, HStatus)]> (st_handlers s) |}
  | Some (r, HStatus) =>
      Some {| st_job := job_set_status (status_of r) (st_job s);
              st_lock := None; st_worker := st_worker s;
              st_handlers := <[i := (r, HDone)]> (st_handlers s) |}
  | Some (_, HDone) | None => None
  end.

Definition step (l : label) (s : state) : option state :=
  match l with
  | Worker now => worker_step now s
  | Arrive r =>
      Some {| st_job := st_job s; st_lock := st_lock s;
              st_worker := st_worker s;
              st_handlers := st_handlers s ++ [(r, HWait)] |}
  | Handler i => handler_step i s
  end.

Fixpoint exec (tr : list label) (s : state) : option state :=
  match tr with
  | [] => Some s
  | l :: tr' =>
      match step l s with
      | Some s' => exec tr' s'
      | None => None
      end
  end.

(** The state [start_process] leaves behind: the job stored, the thread
    started. *)
Definition init : state :=
  {| st_job := new_job (length (wordlist_lines args)); st_lock := None;
     st_worker := WStart; st_handlers := [] |}.

(** The worker running alone, the clock showing [times] at its
    successive steps. *)
Definition alone (times : list Q) : list label := map Worker times.

End Worker.

(** ** Invariants of the machine *)

Section Invariants.

Context {lib : PyLib}.
Variable args : launch.

(** No candidate before the [i]-th one has the target digest. *)
Definition no_match_before (i : nat) : Prop :=
  forall (k : nat) (c : pystr),
    k < i -> wordlist_lines args !! k = Some c -> digest_matches args c = false.

(** What the position of the worker says about [processed], the
    candidates already compared, the lock and the pause flag. *)
Definition worker_inv (s : state) : Prop :=
  let n := length (wordlist_lines args) in
  let p := processed (st_job s) in
  match st_worker s with
  | WStart => p = 0
  | WFor i => p = i /\ i <= n /\ no_match_before i
  | WCheck i =>
      p = i /\ i < n /\ no_match_before i /\ st_lock s = Some OWorker
  | WSpin i =>
      p = i /\ i < n /\ no_match_before i /\ st_lock s = Some OWorker
      /\ paused (st_job s) = true
  | WBody i => p = i /\ i < n /\ no_match_before i
  | WCompare i => p = S i /\ i < n /\ no_match_before i
  | WDone | WCrashed => p <= n
  end.

(** A request thread inside its [with job['lock']] block holds the lock. *)
Definition handlers_inv (s : state) : Prop :=
  forall (k : nat) (r : req_kind) (pc : hpc),
    st_handlers s !! k = Some (r, pc) ->
    pc = HFlag \/ pc = HStatus ->
    st_lock s = Some (OHandler k).

Definition inv (s : state) : Prop :=
  total (st_job s) = length (wordlist_lines args)
  /\ worker_inv s /\ handlers_inv s.


End Invariants.

(** ** Sample jobs and schedules *)

(** An empty wordlist; one candidate that is not the pre-image; the
    pre-image second in the list (its toy digest is [6162]). *)
Definition args_empty : launch :=
  {| job_id := py "id-1"; wordlist_lines := []; target_hash := py "6162";
     client_seed := py "seed"; nonce := 7%Z; max_speed := 20000%Z |}.

Definition args_one : launch :=
  {| job_id := py "id-1"; wordlist_lines := [py "zz"];
     target_hash := py "6162"; client_seed := py "seed"; nonce := 7%Z;
     max_speed := 20000%Z |}.

Definition args_found : launch :=
  {| job_id := py "id-1"; wordlist_lines := [py "zz"; py "ba"; py "cc"];
     target_hash := py "6162"; client_seed := py "seed"; nonce := 7%Z;
     max_speed := 20000%Z |}.

(** The worker finishes the empty list, then a pause request runs up to
    its status write. *)
Definition pause_after_finish : list label :=
  [Worker 0%Q; Worker 1%Q; Arrive Pause; Handler 0; Handler 0].

(** A pause request completes, the worker starts and reaches its pause
    loop, then a resume request arrives. *)
Definition pause_then_resume : list label :=
  [Arrive Pause; Handler 0; Handler 0; Handler 0;
   Worker 0%Q; Worker 1%Q; Worker 1%Q; Arrive Resume].

(** ** The outcome scan as the specification words it

    The hex text cut into its full 5-character chunks from the start, and
    the chunk the specification designates: the first one whose value is
    below 10000, or else the last one. *)

Fixpoint chunks5 (s : pystr) : list pystr :=
  match s with
  | c1 :: c2 :: c3 :: c4 :: c5 :: rest => [c1; c2; c3; c4; c5] :: chunks5 rest
  | _ => []
  end.

Definition below_10000 (chunk : pystr) : bool :=
  match int16 chunk with
  | Some v => (v <? 10000)%Z
  | None => false
  end.

Fixpoint spec_chunk (chunks : list pystr) : option pystr :=
  match chunks with
  | [] => None
  | [c] => Some c
  | c :: rest => if below_10000 c then Some c else spec_chunk rest
  end.

(** ** The archive reader as the specification words it

    The entries that are not directories and can be read, in listing
    order; the lines of their decoded texts put end to end; each line
    trimmed, the empty ones dropped. *)



(** ** Stand-ins for the library calls, to run the model on examples

    ASCII lower-casing for [str.lower], signed decimal digits for [int],
    a reversible toy digest and keyed digest for the two hashes, no
    archive and no gzip stream.  None of the properties depends on them. *)

Definition ascii_lower (s : pystr) : pystr :=
  map (fun c => if ((65 <=? c) && (c <=? 90))%N then (c + 32)%N else c) s.

Fixpoint decimal_acc (acc : Z) (s : pystr) : option Z :=
  match s with
  | [] => Some acc
  | c :: s' =>
      if ((48 <=? c) && (c <=? 57))%N
      then decimal_acc (10 * acc + (Z.of_N c - 48))%Z s'
      else None
  end.

Definition decimal_int (s : pystr) : option Z :=
  match s with
  | [] => None
  | [45%N] => None
  | 45%N :: s' => option_map Z.opp (decimal_acc 0 s')
  | _ => decimal_acc 0 s
  end.

Definition hex_char (d : N) : N := if (d <? 10)%N then (48 + d)%N else (87 + d)%N.

Definition toy_hex (s : pystr) : pystr :=
  flat_map (fun c => [hex_char ((c / 16) mod 16); hex_char (c mod 16)]) s.

Definition toy_sha256 (s : pystr) : option pystr := Some (toy_hex (rev s)).

Definition toy_hmac (key message : pystr) : option pystr :=
  Some (toy_hex (message ++ key)).

Definition no_archive (c : content) : option archive := None.
Definition no_gzip (c : content) : option pystr := None.

Definition toy_lib : PyLib :=
  {| sha256_hex := toy_sha256; hmac_sha512_hex := toy_hmac;
     str_lower := ascii_lower; py_int := decimal_int;
     zip_open := no_archive; gzip_read_text := no_gzip |}.

(** The archive of the ingestion example: two text entries of 3 and 4
    non-empty lines with one blank line each, a directory entry and an
    entry that cannot be read. *)
Definition sample_archive : archive :=
  {| namelist := [py "lists/"; py "lists/a.txt"; py "lists/bad.bin";
                  py "lists/b.txt"];
     open_read := fun name =>
       if bool_decide (name = py "lists/a.txt")
       then Some (list_byte_of_string "alpha
  beta  

gamma
")
       else if bool_decide (name = py "lists/b.txt")
       then Some (list_byte_of_string "one
two

 three
four")
       else None |}.

Definition sample_zip_lib : PyLib :=
  {| sha256_hex := toy_sha256; hmac_sha512_hex := toy_hmac;
     str_lower := ascii_lower; py_int := decimal_int;
     zip_open := fun _ => Some sample_archive; gzip_read_text := no_gzip |}.

(** Sample uploads and requests. *)
Definition sample_zip_upload : file_storage :=
  {| filename := Some (py "Lists.ZIP"); stream := Bytes [] |}.

Definition empty_upload : file_storage :=
  {| filename := Some (py "words.txt"); stream := Bytes [] |}.

Definition empty_upload_request : request :=
  {| form_hashedSeed := Some (py " 6162 ");
     form_clientSeed := Some (py "seed");
     form_nonce := Some (py "7");
     form_speed := None;
     form_wordlistText := None;
     files_wordlist := Some empty_upload |}.

Definition bad_nonce_request : request :=
  {| form_hashedSeed := Some (py "6162");
     form_clientSeed := Some (py "seed");
     form_nonce := Some (py "seven");
     form_speed := None;
     form_wordlistText := Some (py "ab");
     files_wordlist := None |}.

(** ** The rest of the program

    The message of [calculate_dice_roll], [[f"{client_seed}:{nonce}"]]. *)
Definition dice_message (client_seed : pystr) (nonce : Z) : pystr :=
  client_seed ++ py ":" ++ str_of_int nonce.




(** What the reader promises of a candidate: it is not empty, it neither
    starts nor ends with a blank, it holds no line break. *)
Definition clean_candidate (c : pystr) : Prop :=
  c <> []
  /\ (forall a, head c = Some a -> is_space a = false)
  /\ (forall a, last c = Some a -> is_space a = false)
  /\ Forall (fun a => is_linebreak a = false) c.

(** The candidates written one per line, as a client would paste or
    upload them: ["\n".join(candidates)]. *)
Fixpoint join_lines (candidates : list pystr) : pystr :=
  match candidates with
  | [] => []
  | [c] => c
  | c :: rest => c ++ 10%N :: join_lines rest
  end.

(** ** More invariants of the machine *)

Definition worker_in_lock (pc : wpc) : bool :=
  match pc with
  | WCheck _ | WSpin _ => true
  | _ => false
  end.

Definition handler_in_lock (pc : hpc) : bool :=
  match pc with
  | HFlag | HStatus => true
  | _ => false
  end.

(** The lock is taken exactly by the thread that is inside its
    [with job['lock']] block. *)
Definition lock_inv (s : state) : Prop :=
  (st_lock s = Some OWorker -> worker_in_lock (st_worker s) = true)
  /\ (forall k, st_lock s = Some (OHandler k) ->
               exists r pc, st_handlers s !! k = Some (r, pc)
                            /\ handler_in_lock pc = true).

(** Where the pause flag and the statuses [paused] and [running] come
    from: a request thread that has made the write. *)
Definition origin_inv (s : state) : Prop :=
  (paused (st_job s) = true ->
   exists k pc, st_handlers s !! k = Some (Pause, pc)
                /\ (pc = HStatus \/ pc = HDone))
  /\ (status (st_job s) = Paused ->
      exists k, st_handlers s !! k = Some (Pause, HDone))
  /\ (status (st_job s) = Running ->
      exists k, st_handlers s !! k = Some (Resume, HDone))
  /\ (terminal (status (st_job s)) = true -> st_worker s = WDone).


Section MoreInvariants.

Context {lib : PyLib}.
Variable args : launch.

(** What [done], [match] and [roll] say once the worker has returned,
    and before. *)
Definition result_inv (s : state) : Prop :=
  let j := st_job s in
  match st_worker s with
  | WDone =>
      done j = true
      /\ ((match_ j = None /\ roll j = None
           /\ processed j = length (wordlist_lines args)
           /\ no_match_before args (length (wordlist_lines args)))
          \/ (exists i c r,
                 wordlist_lines args !! i = Some c
                 /\ digest_matches args c = true
                 /\ no_match_before args i
                 /\ calculate_dice_roll c (client_seed args) (nonce args)
                    = Some r
                 /\ match_ j = Some c /\ roll j = Some r
                 /\ processed j = S i))
  | _ => done j = false /\ match_ j = None /\ roll j = None
  end.

(** The pause flag is set and no resume request is under way; [p0]
    candidates were counted when that began. *)
Definition frozen (p0 : nat) (s : state) : Prop :=
  paused (st_job s) = true
  /\ Forall (fun h => h.1 = Resume -> h.2 = HDone) (st_handlers s)
  /\ (processed (st_job s) = p0
      \/ (processed (st_job s) = S p0
          /\ forall i, st_worker s <> WBody i)).

End MoreInvariants.

(** Sample requests and tables for the properties below. *)
Definition inline_request : request :=
  {| form_hashedSeed := Some (py " 6162 ");
     form_clientSeed := Some (py "seed");
     form_nonce := Some (py "7");
     form_speed := Some (py "fast");
     form_wordlistText := Some (py "zz
  ba  

cc");
     files_wordlist := None |}.

Definition text_upload : file_storage :=
  {| filename := Some (py "words.txt");
     stream := Bytes (list_byte_of_string "zz
  ba  

cc") |}.

Definition sample_gz_upload : file_storage :=
  {| filename := Some (py "words.GZ"); stream := Str (py "zz") |}.


Definition damaged_gz_upload : file_storage :=
  {| filename := Some (py "words.gz");
     stream := Bytes (list_byte_of_string "zz
ba") |}.

(** An archive with a directory and an entry that cannot be read. *)
Definition hollow_archive : archive :=
  {| namelist := [py "lists/"; py "lists/bad.bin"];
     open_read := fun _ => None |}.

Definition hollow_zip_lib : PyLib :=
  {| sha256_hex := toy_sha256; hmac_sha512_hex := toy_hmac;
     str_lower := ascii_lower; py_int := decimal_int;
     zip_open := fun _ => Some hollow_archive; gzip_read_text := no_gzip |}.

(** A pause request completes while the worker is past its check for the
    first candidate. *)
Definition pause_in_flight : list label :=
  [Worker 0%Q; Worker 1%Q; Worker 2%Q;
   Arrive Pause; Handler 0; Handler 0; Handler 0].

(* ================================================================== *)
(** * Properties *)

(** ** The outcome scan *)

(** [fffff] is 1048575, passed over; [0270f] is 9999, taken. *)
Example extract_roll_second_chunk :
  extract_roll_from_hmac (py "fffff0270f00001") = Some (9999 # 100)%Q.
Proof. reflexivity. Qed.

(** No chunk below 10000: the last full chunk, [eeeee] = 978670, is
    taken; the two characters left over are not read. *)
Example extract_roll_last_chunk :
  extract_roll_from_hmac (py "fffffeeeee12") = Some (8670 # 100)%Q.
Proof. reflexivity. Qed.

Lemma scan_chunks_eq (s : pystr) (pos : nat) (roll : Z) :
  scan_chunks s pos roll =
  if ((10000 <=? roll)%Z && (pos + 5 <=? length s))
  then match int16 (slice s pos (pos + 5)) with
       | Some r => scan_chunks s (pos + 5) r
       | None => None
       end
  else Some roll.
Proof.
  funelim (scan_chunks s pos roll);
    repeat match goal with
      | H : (?a && ?b) = _ |- context [?a && ?b] => rewrite H
      | H : int16 ?x = _ |- context [int16 ?x] => rewrite H
      end; reflexivity.
Qed.

Lemma int16_acc_hex (s : pystr) :
  is_hex s = true -> forall acc, exists v, int16_acc acc s = Some v.
Proof.
  induction s as [|c s IH]; intros Hs acc; simpl.
  - exists acc. reflexivity.
  - simpl in Hs. apply andb_prop in Hs as [Hc Hs].
    unfold is_hex_digit in Hc.
    destruct (hex_digit c) as [d|]; [|discriminate].
    apply IH. exact Hs.
Qed.

Lemma int16_hex (s : pystr) :
  is_hex s = true -> s <> [] -> exists v, int16 s = Some v.
Proof.
  intros Hs Hne. destruct s as [|c s]; [congruence|].
  unfold int16. apply int16_acc_hex. exact Hs.
Qed.

Lemma is_hex_drop (s : pystr) (n : nat) :
  is_hex s = true -> is_hex (drop n s) = true.
Proof.
  revert n. induction s as [|c s IH]; intros [|n] Hs; simpl; auto.
  simpl in Hs. apply andb_prop in Hs as [_ Hs]. apply IH. exact Hs.
Qed.

Lemma is_hex_take (s : pystr) (n : nat) :
  is_hex s = true -> is_hex (take n s) = true.
Proof.
  revert n. induction s as [|c s IH]; intros [|n] Hs; simpl; auto.
  simpl in Hs. apply andb_prop in Hs as [Hc Hs].
  rewrite Hc. simpl. apply IH. exact Hs.
Qed.

Lemma chunks5_short (s : pystr) : length s < 5 -> chunks5 s = [].
Proof.
  intros H. do 5 (destruct s as [|? s]; [reflexivity|]).
  simpl in H. lia.
Qed.

Lemma chunks5_long (s : pystr) :
  5 <= length s -> chunks5 s = take 5 s :: chunks5 (drop 5 s).
Proof.
  intros H. do 5 (destruct s as [|? s]; [simpl in H; lia|]).
  reflexivity.
Qed.

Lemma slice_chunk (s : pystr) (pos : nat) :
  slice s pos (pos + 5) = take 5 (drop pos s).
Proof. unfold slice. f_equal. lia. Qed.

Lemma roll_value_range (r : Z) :
  (0 <= roll_value r)%Q /\ (roll_value r < 100)%Q.
Proof.
  pose proof (Z.mod_pos_bound r 10000 eq_refl) as Hm.
  unfold roll_value, Qle, Qlt, Qdiv, Qmult, Qinv, inject_Z. simpl.
  split; lia.
Qed.

(** From a position with a full chunk ahead and a roll still at or above
    10000, the loop returns the value of the chunk the specification
    designates among the chunks from that position on. *)
Lemma scan_chunks_spec (s : pystr) :
  is_hex s = true ->
  forall (n pos : nat) (roll : Z),
    length s - pos <= n ->
    (10000 <= roll)%Z ->
    pos + 5 <= length s ->
    exists chunk r,
      spec_chunk (chunks5 (drop pos s)) = Some chunk
      /\ int16 chunk = Some r
      /\ scan_chunks s pos roll = Some r.
Proof.
  intros Hs. induction n as [|n IH]; intros pos roll Hn Hroll Hlen; [lia|].
  assert (Hd : 5 <= length (drop pos s)) by (rewrite length_drop; lia).
  rewrite (chunks5_long _ Hd), drop_drop.
  set (chunk := take 5 (drop pos s)).
  assert (Hc : exists v, int16 chunk = Some v).
  { apply int16_hex.
    - apply is_hex_take, is_hex_drop, Hs.
    - intros E. apply (f_equal length) in E. unfold chunk in E.
      rewrite length_take in E. cbn [length] in E. lia. }
  destruct Hc as [v Hv].
  rewrite scan_chunks_eq, slice_chunk. fold chunk. rewrite Hv.
  replace ((10000 <=? roll)%Z && (pos + 5 <=? length s)) with true.
  2:{ symmetry. apply andb_true_intro. split.
      - apply Z.leb_le. exact Hroll.
      - apply Nat.leb_le. exact Hlen. }
  cbv beta iota.
  destruct (Z.leb_spec 10000 v) as [Hbig|Hsmall].
  - destruct (Nat.leb_spec (pos + 5 + 5) (length s)) as [Hmore|Hend].
    + destruct (IH (pos + 5) v) as (chunk' & r & Hspec & Hr & Hscan);
        [lia | exact Hbig | exact Hmore |].
      exists chunk', r. split; [|split; [exact Hr|exact Hscan]].
      cbn [spec_chunk].
      destruct (chunks5 (drop (pos + 5) s)) as [|c' rest] eqn:E;
        [discriminate|].
      unfold below_10000. rewrite Hv.
      replace (v <? 10000)%Z with false
        by (symmetry; apply Z.ltb_ge; exact Hbig).
      exact Hspec.
    + exists chunk, v.
      rewrite chunks5_short by (rewrite length_drop; lia).
      split; [reflexivity|]. split; [exact Hv|].
      rewrite scan_chunks_eq.
      replace (pos + 5 + 5 <=? length s) with false
        by (symmetry; apply Nat.leb_gt; exact Hend).
      rewrite andb_false_r. reflexivity.
  - exists chunk, v. split; [|split; [exact Hv|]].
    + cbn [spec_chunk].
      destruct (chunks5 (drop (pos + 5) s)); [reflexivity|].
      unfold below_10000. rewrite Hv.
      replace (v <? 10000)%Z with true
        by (symmetry; apply Z.ltb_lt; exact Hsmall).
      reflexivity.
    + rewrite scan_chunks_eq.
      replace (10000 <=? v)%Z with false
        by (symmetry; apply Z.leb_gt; exact Hsmall).
      reflexivity.
Qed.

(** Every hex text has an outcome, and it lies in [[0, 100)]. *)
Lemma extract_roll_total (s : pystr) :
  is_hex s = true ->
  exists q, extract_roll_from_hmac s = Some q /\ (0 <= q)%Q /\ (q < 100)%Q.
Proof.
  intros Hs. unfold extract_roll_from_hmac.
  destruct (Nat.leb_spec 5 (length s)) as [Hlong|Hshort].
  - destruct (scan_chunks_spec s Hs (length s) 0 10001) as (c & r & _ & _ & E);
      [lia | lia | exact Hlong |].
    rewrite E. exists (roll_value r). split; [reflexivity|].
    apply roll_value_range.
  - rewrite scan_chunks_eq.
    replace (0 + 5 <=? length s) with false
      by (symmetry; apply Nat.leb_gt; lia).
    simpl. exists (roll_value 10001). split; [reflexivity|].
    apply roll_value_range.
Qed.

(** C1, as amended: for every hex string with at least one full
    5-character chunk (five characters or more), the roll taken by
    [extract_roll_from_hmac] is the value of the first chunk below 10000
    or, when there is none, of the last full chunk, and the result is
    [(roll mod 10000) / 100], a value in [[0, 100)]. *)
Theorem extract_roll_is_designated_chunk (s : pystr) :
  is_hex s = true ->
  5 <= length s ->
  exists chunk r,
    spec_chunk (chunks5 s) = Some chunk
    /\ int16 chunk = Some r
    /\ extract_roll_from_hmac s = Some (roll_value r)
    /\ (0 <= roll_value r)%Q /\ (roll_value r < 100)%Q.
Proof.
  intros Hs Hlen.
  destruct (scan_chunks_spec s Hs (length s) 0 10001) as (c & r & Hc & Hr & E);
    [lia | lia | exact Hlen |].
  exists c, r. unfold extract_roll_from_hmac. rewrite E.
  repeat split; auto; apply roll_value_range.
Qed.

Lemma extract_roll_is_designated_chunk_witness :
  exists chunk r,
    spec_chunk (chunks5 (py "fffff0270f00001")) = Some chunk
    /\ int16 chunk = Some r
    /\ extract_roll_from_hmac (py "fffff0270f00001") = Some (roll_value r)
    /\ (0 <= roll_value r)%Q /\ (roll_value r < 100)%Q.
Proof.
  apply (extract_roll_is_designated_chunk (py "fffff0270f00001")).
  - reflexivity.
  - vm_compute. lia.
Defined.

(** C1 as stated fails on a hex string with no full chunk: the roll is the
    initial 10001, the value of no chunk of the input. *)
Lemma extract_roll_no_chunk_counterexample :
  is_hex (py "abcd") = true
  /\ extract_roll_from_hmac (py "abcd") = Some (1 # 100)%Q
  /\ ~ (exists chunk r,
          spec_chunk (chunks5 (py "abcd")) = Some chunk
          /\ int16 chunk = Some r
          /\ extract_roll_from_hmac (py "abcd") = Some (roll_value r)).
Proof.
  split; [reflexivity|]. split; [reflexivity|].
  intros (chunk & r & H & _). discriminate H.
Qed.

(** C10: on a string shorter than 5 characters the loop body never runs
    (no chunk is read, [int] is never called), the roll stays the initial
    10001 and the result is 1/100, that is 0.01. *)
Theorem extract_roll_short_input (s : pystr) :
  length s < 5 ->
  scan_chunks s 0 10001 = Some 10001%Z
  /\ chunks5 s = []
  /\ extract_roll_from_hmac s = Some (1 # 100)%Q.
Proof.
  intros Hlen.
  assert (E : scan_chunks s 0 10001 = Some 10001%Z).
  { rewrite scan_chunks_eq.
    replace (0 + 5 <=? length s) with false
      by (symmetry; apply Nat.leb_gt; lia).
    reflexivity. }
  split; [exact E|]. split; [apply chunks5_short; exact Hlen|].
  unfold extract_roll_from_hmac. rewrite E. reflexivity.
Qed.

Lemma extract_roll_short_input_witness :
  scan_chunks (py "1a2b") 0 10001 = Some 10001%Z
  /\ chunks5 (py "1a2b") = []
  /\ extract_roll_from_hmac (py "1a2b") = Some (1 # 100)%Q.
Proof.
  apply (extract_roll_short_input (py "1a2b")). vm_compute. lia.
Defined.

(** ** The reader and the start-job handler *)

Lemma nonempty_strip (ln : pystr) :
  nonempty ln && nonempty (strip ln) = nonempty (strip ln).
Proof. destruct ln; reflexivity. Qed.

Lemma clean_lines_spec (lines : list pystr) :
  clean_lines lines = List.filter nonempty (map strip lines).
Proof.
  unfold clean_lines.
  induction lines as [|ln lines IH]; [reflexivity|].
  cbn [List.filter map]. rewrite nonempty_strip.
  destruct (nonempty (strip ln)); cbn [map]; rewrite IH; reflexivity.
Qed.

Lemma zip_loop_spec (z : archive) (names : list pystr) (lines : list pystr) :
  zip_loop z names lines =
  lines ++ concat (map (fun raw => splitlines (decode_text raw))
                       (omap (fun name =>
                                if ends_with name (py "/") then None
                                else open_read z name) names)).
Proof.
  revert lines. induction names as [|name names IH]; intros lines.
  - cbn. rewrite app_nil_r. reflexivity.
  - cbn [zip_loop omap list_omap].
    destruct (ends_with name (py "/")); [apply IH|].
    destruct (open_read z name) as [raw|]; [|apply IH].
    rewrite IH. cbn [map concat]. rewrite app_assoc. reflexivity.
Qed.

Section ReaderFacts.

Context {lib : PyLib}.


(** C7: a request lacking the target digest, the client seed or the
    nonce (absent or blank), or whose nonce is not an integer, or that
    carries neither an uploaded file nor inline text, is answered 400;
    the job table is unchanged and no worker is started. *)
Theorem start_process_rejects (req : request) (new_id : pystr)
    (jobs : gmap (list N) job) :
  form_get_strip (form_hashedSeed req) = []
  \/ form_get_strip (form_clientSeed req) = []
  \/ form_get_strip (form_nonce req) = []
  \/ py_int (form_get_strip (form_nonce req)) = None
  \/ (files_wordlist req = None /\ form_wordlistText req = None) ->
  exists msg, start_process req new_id jobs = (Json400 msg, jobs, None).
Proof.
  intros H. unfold start_process.
  destruct (negb (nonempty (form_get_strip (form_hashedSeed req)))
            || negb (nonempty (form_get_strip (form_clientSeed req)))
            || negb (nonempty (form_get_strip (form_nonce req)))) eqn:Hmiss;
    [eexists; reflexivity|].
  apply orb_false_elim in Hmiss as [Hmiss Hn].
  apply orb_false_elim in Hmiss as [Hh Hc].
  destruct (py_int (form_get_strip (form_nonce req))) as [n|] eqn:Hint;
    [|eexists; reflexivity].
  destruct H as [H|[H|[H|[H|[Hf Ht]]]]].
  - rewrite H in Hh. discriminate.
  - rewrite H in Hc. discriminate.
  - rewrite H in Hn. discriminate.
  - discriminate.
  - unfold request_wordlist. rewrite Hf, Ht.
    eexists; reflexivity.
Qed.

(** C6, as amended: when the candidate source of an otherwise valid
    request yields zero candidate lines, the read returns the empty
    sequence and the handler answers 200, stores a queued job with
    [total = 0] under the new id and starts its worker on the empty
    list. *)
Theorem start_process_empty_source (req : request) (new_id : pystr)
    (jobs : gmap (list N) job) (n : Z) :
  form_get_strip (form_hashedSeed req) <> [] ->
  form_get_strip (form_clientSeed req) <> [] ->
  form_get_strip (form_nonce req) <> [] ->
  py_int (form_get_strip (form_nonce req)) = Some n ->
  request_wordlist req = Some (Returned []) ->
  exists l,
    start_process req new_id jobs
    = (Json200 new_id, <[new_id := new_job 0]> jobs, Some l)
    /\ job_id l = new_id
    /\ wordlist_lines l = []
    /\ (<[new_id := new_job 0]> jobs) !! new_id = Some (new_job 0)
    /\ total (new_job 0) = 0
    /\ status (new_job 0) = Queued.
Proof.
  intros Hh Hc Hn Hint Hsrc. unfold start_process.
  destruct (form_get_strip (form_hashedSeed req)); [congruence|].
  destruct (form_get_strip (form_clientSeed req)); [congruence|].
  destruct (form_get_strip (form_nonce req)) eqn:En; [congruence|].
  cbn [nonempty negb orb]. rewrite Hint, Hsrc.
  eexists. split; [reflexivity|]. cbn.
  repeat split. apply lookup_insert_eq.
Qed.

End ReaderFacts.


(** The ingestion example: 3 and 4 non-empty lines, the directory and the
    unreadable entry passed over, 7 candidates in listing order. *)
Example read_zip_lines_sample :
  @read_wordlist_from_file sample_zip_lib sample_zip_upload
  = Returned [py "alpha"; py "beta"; py "gamma";
              py "one"; py "two"; py "three"; py "four"].
Proof. reflexivity. Qed.

Lemma start_process_rejects_witness :
  exists msg,
    @start_process toy_lib bad_nonce_request (py "id-1") ∅
    = (Json400 msg, ∅, None).
Proof.
  apply (@start_process_rejects toy_lib bad_nonce_request (py "id-1") ∅).
  right. right. right. left. reflexivity.
Defined.

Lemma start_process_empty_source_witness :
  exists l,
    @start_process toy_lib empty_upload_request (py "id-1") ∅
    = (Json200 (py "id-1"), <[py "id-1" := new_job 0]> ∅, Some l)
    /\ job_id l = py "id-1"
    /\ wordlist_lines l = []
    /\ (<[py "id-1" := new_job 0]> (∅ : gmap (list N) job)) !! py "id-1"
       = Some (new_job 0)
    /\ total (new_job 0) = 0
    /\ status (new_job 0) = Queued.
Proof.
  apply (@start_process_empty_source toy_lib empty_upload_request
           (py "id-1") ∅ 7%Z).
  - vm_compute. discriminate.
  - vm_compute. discriminate.
  - vm_compute. discriminate.
  - reflexivity.
  - reflexivity.
Defined.

(** C6 as stated fails on an empty plain-text upload: the read returns the
    empty list, not an error, and the handler creates the job. *)
Lemma empty_upload_counterexample :
  @read_wordlist_from_file toy_lib empty_upload = Returned []
  /\ @read_wordlist_from_file toy_lib empty_upload <> Raised
  /\ (exists l,
        @start_process toy_lib empty_upload_request (py "id-1") ∅
        = (Json200 (py "id-1"), <[py "id-1" := new_job 0]> ∅, Some l)).
Proof.
  split; [reflexivity|]. split; [discriminate|].
  eexists. reflexivity.
Qed.

(** ** The worker and the request threads *)

Section WorkerFacts.

Context {lib : PyLib}.
Variable args : launch.


Lemma no_match_before_0 : no_match_before args 0.
Proof. intros k c Hk. lia. Qed.

Lemma no_match_before_S (i : nat) (c : pystr) :
  no_match_before args i ->
  wordlist_lines args !! i = Some c ->
  digest_matches args c = false ->
  no_match_before args (S i).
Proof.
  intros Hi Hc Hm k c' Hk Hc'.
  destruct (decide (k = i)) as [->|Hne].
  - congruence.
  - apply (Hi k c'); [lia|exact Hc'].
Qed.

Lemma inv_init : inv args (init args).
Proof.
  split; [reflexivity|]. split; [reflexivity|].
  intros k r pc Hk. cbn in Hk. rewrite lookup_nil in Hk. discriminate Hk.
Qed.

Lemma inv_worker_step (now : Q) (s s' : state) :
  inv args s -> worker_step args now s = Some s' -> inv args s'.
Proof.
  intros (Ht & Hw & Hh) Hstep.
  destruct s as [j lk pc hs]. unfold worker_step in Hstep.
  unfold inv, worker_inv, handlers_inv in *. cbn in *.
  destruct pc; repeat case_match; simplify_eq/=.
  all: destruct_and?; split_and!;
    eauto using no_match_before_0, no_match_before_S with lia.
  all: try (eapply lookup_lt_Some; eassumption).
  all: try (intros k r pc' Hk Hpc; specialize (Hh k r pc' Hk Hpc); congruence).
Qed.

Lemma inv_handler_step (i : nat) (s s' : state) :
  inv args s -> handler_step i s = Some s' -> inv args s'.
Proof.
  intros (Ht & Hw & Hh) Hstep.
  destruct s as [j lk pc hs]. unfold handler_step in Hstep.
  unfold inv, worker_inv, handlers_inv in *. cbn in *.
  destruct (hs !! i) as [[r [| | |]]|] eqn:Hi; [| | |discriminate..].
  - destruct lk as [o|]; [discriminate|]. simplify_eq/=.
    split; [exact Ht|]. split.
    + destruct pc; destruct_and?; split_and?; auto; discriminate.
    + intros k r' pc' Hk Hpc.
      destruct (decide (k = i)) as [->|Hne]; [reflexivity|].
      rewrite list_lookup_insert_ne in Hk by congruence.
      specialize (Hh k r' pc' Hk Hpc). discriminate.
  - simplify_eq/=.
    assert (Hlk : lk = Some (OHandler i)) by (eapply Hh; eauto).
    split; [exact Ht|]. split.
    + destruct pc; destruct_and?; split_and?; auto; congruence.
    + intros k r' pc' Hk Hpc.
      destruct (decide (k = i)) as [->|Hne]; [exact Hlk|].
      rewrite list_lookup_insert_ne in Hk by congruence.
      eapply Hh; eauto.
  - simplify_eq/=.
    assert (Hlk : lk = Some (OHandler i)) by (eapply Hh; eauto).
    split; [exact Ht|]. split.
    + destruct pc; destruct_and?; split_and?; auto; congruence.
    + intros k r' pc' Hk Hpc.
      destruct (decide (k = i)) as [->|Hne].
      * rewrite list_lookup_insert_eq in Hk by (eapply lookup_lt_Some; eauto).
        destruct Hpc; congruence.
      * rewrite list_lookup_insert_ne in Hk by congruence.
        specialize (Hh k r' pc' Hk Hpc). congruence.
Qed.

Lemma inv_step (l : label) (s s' : state) :
  inv args s -> step args l s = Some s' -> inv args s'.
Proof.
  intros Hinv Hstep. destruct l as [now|r|i]; cbn in Hstep.
  - eapply inv_worker_step; eauto.
  - destruct Hinv as (Ht & Hw & Hh). injection Hstep as <-.
    split; [exact Ht|]. split.
    + destruct s as [j lk pc hs]. unfold worker_inv in *. cbn in *. exact Hw.
    + intros k r' pc' Hk Hpc. cbn in *.
      apply lookup_app_Some in Hk as [Hk|[_ Hk]].
      * eapply Hh; eauto.
      * apply list_lookup_singleton_Some in Hk as [_ Hk].
        destruct Hpc; congruence.
  - eapply inv_handler_step; eauto.
Qed.

Lemma inv_exec (tr : list label) (s s' : state) :
  inv args s -> exec args tr s = Some s' -> inv args s'.
Proof.
  revert s. induction tr as [|l tr IH]; intros s Hinv Hexec; cbn in Hexec.
  - congruence.
  - destruct (step args l s) as [s1|] eqn:Hstep; [|discriminate].
    eapply IH; [|exact Hexec]. eapply inv_step; eauto.
Qed.

Lemma inv_reachable (tr : list label) (s : state) :
  exec args tr (init args) = Some s -> inv args s.
Proof. apply inv_exec, inv_init. Qed.

Lemma inv_processed_le (s : state) :
  inv args s -> processed (st_job s) <= total (st_job s).
Proof.
  intros (Ht & Hw & _). rewrite Ht. unfold worker_inv in Hw.
  destruct (st_worker s); cbn in Hw; lia.
Qed.

Lemma processed_step (l : label) (s s' : state) :
  inv args s -> step args l s = Some s' ->
  processed (st_job s) <= processed (st_job s').
Proof.
  intros (_ & Hw & _) Hstep. destruct s as [j lk pc hs].
  unfold worker_inv in Hw. cbn in Hw.
  destruct l as [now|r|i]; cbn in Hstep.
  - unfold worker_step in Hstep. cbn in Hstep.
    destruct pc; repeat case_match; simplify_eq/=; lia.
  - injection Hstep as <-. cbn. lia.
  - unfold handler_step in Hstep. cbn in Hstep.
    repeat case_match; simplify_eq/=; lia.
Qed.

Lemma processed_exec (tr : list label) (s s' : state) :
  inv args s -> exec args tr s = Some s' ->
  processed (st_job s) <= processed (st_job s').
Proof.
  revert s. induction tr as [|l tr IH]; intros s Hinv Hexec; cbn in Hexec.
  - injection Hexec as <-. lia.
  - destruct (step args l s) as [s1|] eqn:Hstep; [|discriminate].
    pose proof (processed_step l s s1 Hinv Hstep).
    pose proof (IH s1 (inv_step l s s1 Hinv Hstep) Hexec). lia.
Qed.

(** C9: in every state the job can reach, under every interleaving of the
    worker with pause and resume requests, [0 <= processed <= total]; and
    between a state and any later one [processed] does not decrease. *)
Theorem processed_bounded_monotone (tr1 tr2 : list label) (s1 s2 : state) :
  exec args tr1 (init args) = Some s1 ->
  exec args tr2 s1 = Some s2 ->
  0 <= processed (st_job s1)
  /\ processed (st_job s1) <= total (st_job s1)
  /\ processed (st_job s1) <= processed (st_job s2)
  /\ processed (st_job s2) <= total (st_job s2).
Proof.
  intros H1 H2.
  pose proof (inv_reachable tr1 s1 H1) as Hinv1.
  pose proof (inv_exec tr2 s1 s2 Hinv1 H2) as Hinv2.
  split; [lia|]. split; [apply inv_processed_le, Hinv1|].
  split; [eapply processed_exec; eauto|apply inv_processed_le, Hinv2].
Qed.

(** C4, as amended: a step changes the status only in three ways: the
    worker's last step sets [completed] or [finished_no_match] (and
    [done]); the status write of a pause request sets [paused]; the status
    write of a resume request sets [running].  The request writes are
    enabled whatever the current status and the worker never sets
    [running].  Once the worker has returned it takes no further step,
    and no step changes [done], [match], [roll] or [processed]. *)
Theorem status_changes (l : label) (s s' : state) :
  step args l s = Some s' ->
  (status (st_job s') = status (st_job s)
   \/ (exists now, l = Worker now /\ st_worker s' = WDone
                   /\ terminal (status (st_job s')) = true
                   /\ done (st_job s') = true)
   \/ (exists i r, l = Handler i
                   /\ st_handlers s !! i = Some (r, HStatus)
                   /\ status (st_job s') = status_of r))
  /\ (forall i r, st_handlers s !! i = Some (r, HStatus) ->
        exists s'', step args (Handler i) s = Some s''
                    /\ status (st_job s'') = status_of r)
  /\ (st_worker s = WDone ->
        (forall now, l <> Worker now)
        /\ st_worker s' = WDone
        /\ done (st_job s') = done (st_job s)
        /\ match_ (st_job s') = match_ (st_job s)
        /\ roll (st_job s') = roll (st_job s)
        /\ processed (st_job s') = processed (st_job s)).
Proof.
  intros Hstep. destruct s as [j lk pc hs]. split; [|split].
  - destruct l as [now|r|i]; cbn in Hstep.
    + unfold worker_step in Hstep. cbn in Hstep.
      destruct pc; repeat case_match; simplify_eq/=; auto;
        right; left; exists now; auto.
    + injection Hstep as <-. left. reflexivity.
    + unfold handler_step in Hstep. cbn in Hstep.
      destruct (hs !! i) as [[r [| | |]]|] eqn:Hi;
        repeat case_match; simplify_eq/=; auto.
      all: right; right; exists i, r; auto.
  - intros i r Hi. cbn in Hi. cbn. unfold handler_step. cbn. rewrite Hi.
    eexists. split; reflexivity.
  - cbn. intros ->. destruct l as [now|r|i]; cbn in Hstep.
    + discriminate.
    + injection Hstep as <-. cbn. repeat split; auto; discriminate.
    + unfold handler_step in Hstep. cbn in Hstep.
      repeat case_match; simplify_eq/=; repeat split; auto; discriminate.
Qed.

(** *** The pause loop *)

Lemma spin_step (i : nat) (l : label) (s s' : state) :
  inv args s -> st_worker s = WSpin i -> step args l s = Some s' ->
  st_worker s' = WSpin i
  /\ st_job s' = st_job s
  /\ st_lock s' = st_lock s
  /\ exists extra, st_handlers s' = st_handlers s ++ extra
                   /\ Forall (fun h => h.2 = HWait) extra.
Proof.
  intros (_ & Hw & Hh) Hpc Hstep. destruct s as [j lk pc hs].
  unfold worker_inv, handlers_inv in *. cbn in *. subst pc.
  destruct Hw as (_ & _ & _ & Hlk & Hp).
  destruct l as [now|r|k]; cbn in Hstep.
  - unfold worker_step in Hstep. cbn in Hstep. rewrite Hp in Hstep.
    injection Hstep as <-. cbn. repeat split.
    exists []. rewrite app_nil_r. auto.
  - injection Hstep as <-. cbn. repeat split.
    exists [(r, HWait)]. split; [reflexivity|].
    constructor; [reflexivity|constructor].
  - exfalso. unfold handler_step in Hstep. cbn in Hstep.
    destruct (hs !! k) as [[r [| | |]]|] eqn:Hk; try discriminate.
    + rewrite Hlk in Hstep. discriminate.
    + specialize (Hh k r HFlag Hk (or_introl eq_refl)). congruence.
    + specialize (Hh k r HStatus Hk (or_intror eq_refl)). congruence.
Qed.

Lemma spin_exec (i : nat) (tr : list label) (s s' : state) :
  inv args s -> st_worker s = WSpin i -> exec args tr s = Some s' ->
  st_worker s' = WSpin i
  /\ st_job s' = st_job s
  /\ st_lock s' = st_lock s
  /\ exists extra, st_handlers s' = st_handlers s ++ extra
                   /\ Forall (fun h => h.2 = HWait) extra.
Proof.
  revert s. induction tr as [|l tr IH]; intros s Hinv Hpc Hexec; cbn in Hexec.
  - injection Hexec as <-. repeat split; auto.
    exists []. rewrite app_nil_r. auto.
  - destruct (step args l s) as [s1|] eqn:Hstep; [|discriminate].
    destruct (spin_step i l s s1 Hinv Hpc Hstep)
      as (Hpc1 & Hj1 & Hl1 & e1 & He1 & Hf1).
    destruct (IH s1 (inv_step l s s1 Hinv Hstep) Hpc1 Hexec)
      as (Hpc2 & Hj2 & Hl2 & e2 & He2 & Hf2).
    repeat split; [congruence..|].
    exists (e1 ++ e2). split.
    + rewrite He2, He1, app_assoc. reflexivity.
    + apply Forall_app. auto.
Qed.

(** C5, what the code does: once the worker has entered its pause loop
    it never leaves it.  It sleeps holding the job lock, so every later
    request, resume included, waits before [with job['lock']] and never
    writes the flag; the job, and [processed] with it, stays as it is. *)
Theorem pause_loop_never_ends (i : nat) (tr1 tr2 : list label) (s1 s2 : state) :
  exec args tr1 (init args) = Some s1 ->
  st_worker s1 = WSpin i ->
  exec args tr2 s1 = Some s2 ->
  st_worker s2 = WSpin i
  /\ st_lock s2 = Some OWorker
  /\ paused (st_job s2) = true
  /\ processed (st_job s2) = processed (st_job s1)
  /\ st_job s2 = st_job s1
  /\ exists extra, st_handlers s2 = st_handlers s1 ++ extra
                   /\ Forall (fun h => h.2 = HWait) extra.
Proof.
  intros H1 Hpc H2.
  pose proof (inv_reachable tr1 s1 H1) as Hinv.
  destruct (spin_exec i tr2 s1 s2 Hinv Hpc H2) as (Hpc2 & Hj & Hl & Hex).
  destruct Hinv as (_ & Hw & _). unfold worker_inv in Hw.
  rewrite Hpc in Hw. destruct Hw as (_ & _ & _ & Hlk & Hp).
  rewrite Hj, Hl. repeat split; auto.
Qed.

(** *** The worker running alone *)












End WorkerFacts.

(* ================================================================== *)
(** * Further properties *)

(** ** Hash utilities *)





Lemma scan_chunks_tail (s t : pystr) :
  length s mod 5 = 0 -> length t < 5 ->
  forall n pos roll,
    length s - pos <= n -> pos mod 5 = 0 ->
    scan_chunks (s ++ t) pos roll = scan_chunks s pos roll.
Proof.
  intros Hs Ht. induction n as [|n IH]; intros pos roll Hn Hpos.
  all: rewrite (scan_chunks_eq (s ++ t)), (scan_chunks_eq s), length_app.
  all: pose proof (Nat.Div0.div_mod (length s) 5) as Es.
  all: pose proof (Nat.Div0.div_mod pos 5) as Ep.
  all: destruct (Nat.leb_spec (pos + 5) (length s)) as [Hin|Hout].
  all: try (replace (pos + 5 <=? length s + length t) with true
              by (symmetry; apply Nat.leb_le; lia)).
  all: try (replace (pos + 5 <=? length s + length t) with false
              by (symmetry; apply Nat.leb_gt; lia)).
  all: rewrite ?andb_false_r; try reflexivity.
  - lia.
  - replace (slice (s ++ t) pos (pos + 5)) with (slice s pos (pos + 5)).
    + destruct (10000 <=? roll)%Z; [|reflexivity]. cbn [andb].
      destruct (int16 (slice s pos (pos + 5))); [|reflexivity].
      apply IH; [lia|].
      rewrite <- Nat.Div0.add_mod_idemp_l, Hpos. reflexivity.
    + rewrite !slice_chunk, drop_app_le by lia.
      rewrite take_app_le by (rewrite length_drop; lia). reflexivity.
Qed.

(** X2: characters after the last full chunk are never read: adding up
    to four characters to a text made of full chunks does not change the
    outcome. *)
Theorem extract_roll_ignores_tail (s t : pystr) :
  length s mod 5 = 0 ->
  length t < 5 ->
  extract_roll_from_hmac (s ++ t) = extract_roll_from_hmac s.
Proof.
  intros Hs Ht. unfold extract_roll_from_hmac.
  rewrite (scan_chunks_tail s t Hs Ht (length s) 0 10001); [reflexivity|lia|].
  reflexivity.
Qed.

Lemma py_inj (a b : string) : py a = py b -> a = b.
Proof.
  unfold py. intros H.
  rewrite <- (string_of_list_byte_of_string a),
          <- (string_of_list_byte_of_string b).
  f_equal. revert H.
  generalize (list_byte_of_string a) (list_byte_of_string b).
  induction l as [|x l IH]; intros [|y l'] H; try discriminate; auto.
  cbn in H. injection H as Hxy Hl. f_equal; [|auto].
  pose proof (Byte.of_to_N x) as Hx. rewrite Hxy, Byte.of_to_N in Hx.
  congruence.
Qed.

Lemma to_int_not_nil (n : Z) :
  Z.to_int n <> Decimal.Pos Decimal.Nil /\ Z.to_int n <> Decimal.Neg Decimal.Nil.
Proof.
  split; intros H; pose proof (f_equal Z.of_int H) as E;
    rewrite DecimalZ.of_to in E; cbn in E; subst n; discriminate H.
Qed.

Lemma str_of_int_inj (a b : Z) : str_of_int a = str_of_int b -> a = b.
Proof.
  unfold str_of_int. intros H. apply py_inj in H.
  apply (f_equal NilZero.int_of_string) in H.
  destruct (to_int_not_nil a), (to_int_not_nil b).
  rewrite !NilZero.isi in H by assumption.
  injection H as H. apply (f_equal Z.of_int) in H.
  rewrite !DecimalZ.of_to in H. exact H.
Qed.

Lemma uint_no_colon (d : Decimal.uint) :
  ~ In 58%N (py (NilEmpty.string_of_uint d)).
Proof.
  induction d; cbn; [intros []|intros [H|H]..]; try discriminate; auto.
Qed.

Lemma str_of_int_no_colon (n : Z) : ~ In 58%N (str_of_int n).
Proof.
  unfold str_of_int. destruct (Z.to_int n) as [d|d]; cbn.
  - destruct d; try apply uint_no_colon. cbn. intros [H|[]]. discriminate.
  - intros [H|H]; [discriminate|].
    destruct d; try (revert H; apply uint_no_colon).
    cbn in H. destruct H as [H|[]]. discriminate.
Qed.

Lemma split_at_last (x : N) (l1 l2 r1 r2 : pystr) :
  ~ In x r1 -> ~ In x r2 ->
  l1 ++ x :: r1 = l2 ++ x :: r2 -> l1 = l2 /\ r1 = r2.
Proof.
  intros H1 H2. revert l2.
  induction l1 as [|a l1 IH]; intros [|b l2] H; cbn in H.
  - injection H as ->. auto.
  - injection H as <- ->. exfalso. apply H1, in_or_app. right. left. reflexivity.
  - injection H as -> <-. exfalso. apply H2, in_or_app. right. left. reflexivity.
  - injection H as -> H. destruct (IH l2 H) as [-> ->]. auto.
Qed.

(** X3: the message that [calculate_dice_roll] signs tells the client
    seed and the nonce apart: two pairs give the same message only when
    they are equal, also when the client seed holds colons or digits. *)
Theorem dice_message_injective (seed1 seed2 : pystr) (n1 n2 : Z) :
  dice_message seed1 n1 = dice_message seed2 n2 ->
  seed1 = seed2 /\ n1 = n2.
Proof.
  unfold dice_message. cbn [py list_byte_of_string map app].
  change (py ":") with [58%N]. cbn [app]. intros H.
  apply split_at_last in H as [-> H];
    [|apply str_of_int_no_colon|apply str_of_int_no_colon].
  split; [reflexivity|]. apply str_of_int_inj, H.
Qed.

Section DiceFacts.

Context {lib : PyLib}.

(** X4: [calculate_dice_roll] raises exactly when the keyed digest
    raises or is not readable as hex; on a hex digest of the message
    [client_seed:nonce] under the key [server_seed] it returns a whole
    number of hundredths from 0.00 to 99.99. *)
Theorem calculate_dice_roll_range (server_seed seed h : pystr) (n : Z) :
  hmac_sha512_hex server_seed (dice_message seed n) = Some h ->
  is_hex h = true ->
  exists k : Z,
    (0 <= k < 10000)%Z
    /\ calculate_dice_roll server_seed seed n = Some (inject_Z k / 100)%Q
    /\ calculate_dice_roll server_seed seed n = extract_roll_from_hmac h.
Proof.
  intros Hh Hhex. unfold calculate_dice_roll. fold (dice_message seed n).
  rewrite Hh. destruct (extract_roll_total h Hhex) as (q & Hq & _).
  unfold extract_roll_from_hmac in *.
  destruct (scan_chunks h 0 10001) as [r|]; [|discriminate].
  exists (r mod 10000)%Z. split; [apply Z.mod_pos_bound; lia|].
  split; reflexivity.
Qed.

End DiceFacts.

(** ** The reader *)

Lemma last_rev (l : pystr) : last (rev l) = head l.
Proof. destruct l as [|a l]; [reflexivity|]. cbn. apply last_snoc. Qed.

Lemma head_rev (l : pystr) : head (rev l) = last l.
Proof. rewrite <- (rev_involutive l) at 2. symmetry. apply last_rev. Qed.

Lemma lstrip_head (s : pystr) (a : N) :
  head (lstrip s) = Some a -> is_space a = false.
Proof.
  induction s as [|c s IH]; cbn; [discriminate|].
  destruct (is_space c) eqn:E; [exact IH|].
  cbn. intros H. injection H as <-. exact E.
Qed.

Lemma lstrip_suffix (s : pystr) : exists p, s = p ++ lstrip s.
Proof.
  induction s as [|c s [p IH]]; cbn; [exists []; reflexivity|].
  destruct (is_space c).
  - exists (c :: p). cbn. f_equal. exact IH.
  - exists []. reflexivity.
Qed.

Lemma lstrip_fixed (s : pystr) :
  (forall a, head s = Some a -> is_space a = false) -> lstrip s = s.
Proof.
  destruct s as [|c s]; cbn; [reflexivity|].
  intros H. rewrite (H c eq_refl). reflexivity.
Qed.

Lemma lstrip_Forall (P : N -> Prop) (s : pystr) :
  Forall P s -> Forall P (lstrip s).
Proof.
  destruct (lstrip_suffix s) as [p E]. intros H. rewrite E in H.
  apply Forall_app in H as [_ H]. exact H.
Qed.

Lemma strip_Forall (P : N -> Prop) (s : pystr) :
  Forall P s -> Forall P (strip s).
Proof.
  intros H. unfold strip.
  apply Forall_rev, lstrip_Forall, Forall_rev, lstrip_Forall, H.
Qed.

Lemma strip_ends (s : pystr) :
  (forall a, head (strip s) = Some a -> is_space a = false)
  /\ (forall a, last (strip s) = Some a -> is_space a = false).
Proof.
  unfold strip. split; intros a H.
  - rewrite head_rev in H.
    destruct (lstrip_suffix (rev (lstrip s))) as [p E].
    destruct (lstrip (rev (lstrip s))) as [|b t] eqn:Eb; [discriminate|].
    apply (lstrip_head s a).
    rewrite <- last_rev, E, last_app, H. reflexivity.
  - rewrite last_rev in H. eapply lstrip_head, H.
Qed.

Lemma strip_idempotent (s : pystr) : strip (strip s) = strip s.
Proof.
  destruct (strip_ends s) as [Hh Hl].
  unfold strip at 1. rewrite (lstrip_fixed (strip s) Hh).
  rewrite lstrip_fixed; [apply rev_involutive|].
  intros a. rewrite head_rev. apply Hl.
Qed.

Lemma splitlines_from_no_break (n : nat) :
  forall s cur,
    length s <= n ->
    Forall (fun a => is_linebreak a = false) cur ->
    Forall (Forall (fun a => is_linebreak a = false)) (splitlines_from cur s).
Proof.
  induction n as [|n IH]; intros s cur Hn Hcur.
  - destruct s; [|cbn in Hn; lia]. cbn.
    destruct cur; [constructor|]. constructor; [|constructor].
    apply Forall_rev, Hcur.
  - destruct s as [|c s]; cbn.
    + destruct cur; [constructor|]. constructor; [|constructor].
      apply Forall_rev, Hcur.
    + cbn in Hn. destruct (is_linebreak c) eqn:Ec.
      * constructor; [apply Forall_rev, Hcur|].
        destruct s as [|c' s]; [constructor|].
        destruct ((c =? 13)%N && (c' =? 10)%N).
        -- apply IH; [cbn in Hn; lia|constructor].
        -- apply IH; [lia|constructor].
      * apply IH; [lia|]. constructor; assumption.
Qed.

Lemma splitlines_no_break (s : pystr) :
  Forall (Forall (fun a => is_linebreak a = false)) (splitlines s).
Proof. apply (splitlines_from_no_break (length s)); [lia|constructor]. Qed.

Lemma clean_lines_clean (lines : list pystr) :
  Forall (Forall (fun a => is_linebreak a = false)) lines ->
  Forall clean_candidate (clean_lines lines).
Proof.
  intros H. rewrite clean_lines_spec. apply List.Forall_forall. intros c Hc.
  apply filter_In in Hc as [Hc Hne]. apply in_map_iff in Hc as (ln & <- & Hln).
  rewrite List.Forall_forall in H.
  destruct (strip_ends ln) as [Hh Hl].
  repeat split; auto.
  - intros E. rewrite E in Hne. discriminate.
  - apply strip_Forall, H, Hln.
Qed.

Lemma inline_lines_eq (text : pystr) :
  inline_lines text = clean_lines (splitlines text).
Proof.
  unfold inline_lines, clean_lines. f_equal.
  induction (splitlines text) as [|ln l IH]; [reflexivity|].
  cbn [List.filter]. rewrite nonempty_strip, IH. reflexivity.
Qed.

Lemma ascii_utf8_decode (bs : list N) :
  Forall (fun b => (b < 128)%N) bs -> utf8_decode_N bs = Some bs.
Proof.
  induction 1 as [|b bs Hb _ IH]; [reflexivity|].
  cbn [utf8_decode_N].
  replace (b <? 128)%N with true by (symmetry; apply N.ltb_lt; exact Hb).
  rewrite IH. reflexivity.
Qed.

(** X5: a wordlist of ASCII bytes is read byte for byte: each byte
    becomes the character of the same code. *)
Theorem decode_text_ascii (raw : bytes) :
  Forall (fun b => (Byte.to_N b < 128)%N) raw ->
  decode_text raw = map Byte.to_N raw.
Proof.
  intros H. unfold decode_text, utf8_decode.
  rewrite ascii_utf8_decode; [reflexivity|].
  apply Forall_map. exact H.
Qed.

Lemma splitlines_from_last (c cur : pystr) :
  Forall (fun a => is_linebreak a = false) c ->
  splitlines_from cur c
  = match rev cur ++ c with [] => [] | _ => [rev cur ++ c] end.
Proof.
  revert cur. induction c as [|a c IH]; intros cur H; cbn [splitlines_from].
  - rewrite app_nil_r. destruct cur as [|b cur]; [reflexivity|].
    cbn [rev]. destruct (rev cur); reflexivity.
  - inversion_clear H as [|? ? Ha Hc]. rewrite Ha, (IH _ Hc).
    cbn [rev]. rewrite <- app_assoc. reflexivity.
Qed.

Lemma splitlines_from_line (c cur rest : pystr) :
  Forall (fun a => is_linebreak a = false) c ->
  splitlines_from cur (c ++ 10%N :: rest)
  = (rev cur ++ c) :: splitlines_from [] rest.
Proof.
  revert cur. induction c as [|a c IH]; intros cur H.
  - cbn. rewrite app_nil_r. destruct rest; reflexivity.
  - inversion_clear H as [|? ? Ha Hc].
    cbn [app splitlines_from]. rewrite Ha, (IH _ Hc).
    cbn [rev]. rewrite <- app_assoc. reflexivity.
Qed.

Lemma splitlines_join (cs : list pystr) :
  Forall clean_candidate cs -> splitlines (join_lines cs) = cs.
Proof.
  unfold splitlines. induction 1 as [|c cs Hc Hcs IH]; [reflexivity|].
  destruct Hc as (Hne & _ & _ & Hnb).
  destruct cs as [|c' cs].
  - cbn [join_lines]. rewrite (splitlines_from_last c [] Hnb). cbn.
    destruct c; [congruence|reflexivity].
  - change (join_lines (c :: c' :: cs))
      with (c ++ 10%N :: join_lines (c' :: cs)).
    rewrite (splitlines_from_line c [] _ Hnb), IH. reflexivity.
Qed.

(** X21: reading is a round trip on clean candidates.  Candidates that
    are not empty, have no blank at either end and hold no line break,
    written one per line and read back as inline text, come out the
    same, in the same order and with their duplicates. *)
Theorem inline_lines_join (cs : list pystr) :
  Forall clean_candidate cs ->
  inline_lines (join_lines cs) = cs.
Proof.
  intros H. unfold inline_lines. rewrite (splitlines_join cs H).
  induction H as [|c cs Hc _ IH]; [reflexivity|].
  destruct Hc as (Hne & Hh & Hl & _).
  assert (E : strip c = c).
  { unfold strip. rewrite (lstrip_fixed c Hh).
    rewrite lstrip_fixed; [apply rev_involutive|].
    intros a. rewrite head_rev. apply Hl. }
  cbn [List.filter]. rewrite E.
  destruct c; [congruence|]. cbn [nonempty map]. rewrite IH.
  f_equal. exact E.
Qed.

Section ReaderMore.

Context {lib : PyLib}.

Lemma zip_loop_no_break (z : archive) (names : list pystr) :
  Forall (Forall (fun a => is_linebreak a = false)) (zip_loop z names []).
Proof.
  rewrite zip_loop_spec. cbn [app]. apply Forall_concat.
  apply Forall_map, List.Forall_forall. intros raw _. apply splitlines_no_break.
Qed.

Lemma read_wordlist_clean (fs : file_storage) (lines : list pystr) :
  read_wordlist_from_file fs = Returned lines ->
  Forall clean_candidate lines.
Proof.
  unfold read_wordlist_from_file. intros H.
  repeat case_match; simplify_eq/=;
    apply clean_lines_clean;
    first [apply zip_loop_no_break | apply splitlines_no_break].
Qed.

(** X6: every candidate handed to a worker is clean: not empty, without
    a blank at either end (so that stripping it again changes nothing),
    and without a line break; this holds for an upload of any of the
    three kinds and for inline text. *)
Theorem start_process_candidates_clean (req : request) (new_id : pystr)
    (jobs jobs' : gmap (list N) job) (resp : response) (l : launch) :
  start_process req new_id jobs = (resp, jobs', Some l) ->
  Forall (fun c => clean_candidate c /\ strip c = c) (wordlist_lines l).
Proof.
  unfold start_process, request_wordlist. intros H.
  assert (Hc : Forall clean_candidate (wordlist_lines l)).
  { repeat case_match; simplify_eq/=;
      first [ eapply read_wordlist_clean; eassumption
            | rewrite inline_lines_eq;
              apply clean_lines_clean, splitlines_no_break ]. }
  eapply Forall_impl; [exact Hc|]. intros c Hcc. split; [exact Hcc|].
  destruct Hcc as (_ & Hh & Hl & _).
  unfold strip. rewrite (lstrip_fixed c Hh).
  rewrite lstrip_fixed; [apply rev_involutive|].
  intros a. rewrite head_rev. apply Hl.
Qed.

(** X7: an upload whose name ends neither in [.zip] nor in [.gz] is
    read exactly as inline text is: the same candidates come out of the
    file's text (its bytes decoded as UTF-8, or as Latin-1 when they are
    not valid UTF-8) as out of that text pasted inline. *)
Theorem read_plain_text_as_inline (fs : file_storage) :
  let name := str_lower (match filename fs with Some f => f | None => [] end) in
  ends_with name (py ".zip") = false ->
  ends_with name (py ".gz") = false ->
  read_wordlist_from_file fs
  = Returned (inline_lines (match stream fs with
                            | Bytes raw => decode_text raw
                            | Str text => text
                            end)).
Proof.
  intros name Hz Hg. unfold read_wordlist_from_file. fold name.
  rewrite Hz, Hg, inline_lines_eq. reflexivity.
Qed.

(** X8: the reader raises in two cases only: a [.zip] upload that
    [zipfile] cannot open, and a [.gz] upload that [gzip] cannot read
    and whose stream does not hold bytes.  A damaged [.gz] upload of
    bytes is read as plain text instead. *)
Theorem read_wordlist_raises (fs : file_storage) :
  let name := str_lower (match filename fs with Some f => f | None => [] end) in
  read_wordlist_from_file fs = Raised <->
  (ends_with name (py ".zip") = true /\ zip_open (stream fs) = None)
  \/ (ends_with name (py ".zip") = false
      /\ ends_with name (py ".gz") = true
      /\ gzip_read_text (stream fs) = None
      /\ exists text, stream fs = Str text).
Proof.
  intros name. unfold read_wordlist_from_file. fold name.
  destruct (ends_with name (py ".zip"));
    [|destruct (ends_with name (py ".gz"))].
  1: destruct (zip_open (stream fs)).
  3: destruct (gzip_read_text (stream fs)); [|destruct (stream fs) eqn:Es].
  all: split; intros H; try discriminate H; try reflexivity.
  all: try (destruct H as [[H1 H2]|(H1 & H2 & H3 & t & H4)]; congruence).
  - left. auto.
  - right. eauto.
Qed.

(** X9: what [start_process] can do.  It answers 400 or fails on the
    reader's exception, and then the job table is as before and no
    worker is started; or it answers 200 with the new id, stores under
    that id a fresh queued job whose [total] is the number of candidates
    and starts one worker with that id and those candidates.  A worker is
    never started without its job, nor a job stored without its worker. *)
Theorem start_process_outcomes (req : request) (new_id : pystr)
    (jobs : gmap (list N) job) :
  (exists msg, start_process req new_id jobs = (Json400 msg, jobs, None))
  \/ (start_process req new_id jobs = (Unhandled, jobs, None)
      /\ exists file, files_wordlist req = Some file
                      /\ read_wordlist_from_file file = Raised)
  \/ (exists l,
        start_process req new_id jobs
        = (Json200 new_id,
           <[new_id := new_job (length (wordlist_lines l))]> jobs, Some l)
        /\ job_id l = new_id
        /\ request_wordlist req = Some (Returned (wordlist_lines l))
        /\ target_hash l = form_get_strip (form_hashedSeed req)
        /\ client_seed l = form_get_strip (form_clientSeed req)
        /\ py_int (form_get_strip (form_nonce req)) = Some (nonce l)).
Proof.
  unfold start_process.
  destruct (negb (nonempty (form_get_strip (form_hashedSeed req)))
            || negb (nonempty (form_get_strip (form_clientSeed req)))
            || negb (nonempty (form_get_strip (form_nonce req))));
    [left; eexists; reflexivity|].
  destruct (py_int (form_get_strip (form_nonce req))) as [n|] eqn:Hn;
    [|left; eexists; reflexivity].
  destruct (request_wordlist req) as [[lines|]|] eqn:Hw.
  - right. right.
    match goal with
    | |- exists l, (_, _, Some ?t) = _ /\ _ => exists t
    end.
    split; [reflexivity|]. cbn. auto.
  - right. left. split; [reflexivity|].
    unfold request_wordlist in Hw.
    destruct (files_wordlist req) as [file|]; [|destruct (form_wordlistText req); discriminate].
    exists file. split; [reflexivity|]. congruence.
  - left. eexists. reflexivity.
Qed.


(** X19: a [.gz] upload of bytes that [gzip] cannot read is not an
    error: its raw bytes are read as a plain-text wordlist. *)
Theorem read_gz_fallback (fs : file_storage) (raw : bytes) :
  let name := str_lower (match filename fs with Some f => f | None => [] end) in
  ends_with name (py ".zip") = false ->
  ends_with name (py ".gz") = true ->
  gzip_read_text (stream fs) = None ->
  stream fs = Bytes raw ->
  read_wordlist_from_file fs = Returned (inline_lines (decode_text raw)).
Proof.
  intros name Hz Hg Hgz Hs. unfold read_wordlist_from_file. fold name.
  rewrite Hz, Hg, Hgz, Hs, inline_lines_eq. reflexivity.
Qed.

(** X20: an archive that opens but in which every entry is a directory
    or cannot be read gives the empty wordlist, not an error. *)
Theorem read_zip_nothing_readable (fs : file_storage) (z : archive) :
  ends_with (str_lower (match filename fs with Some f => f | None => [] end))
            (py ".zip") = true ->
  zip_open (stream fs) = Some z ->
  Forall (fun name => ends_with name (py "/") = true
                      \/ open_read z name = None) (namelist z) ->
  read_wordlist_from_file fs = Returned [].
Proof.
  intros Hname Hopen Hall. unfold read_wordlist_from_file.
  rewrite Hname, Hopen. f_equal.
  assert (E : forall lines, zip_loop z (namelist z) lines = lines).
  { induction Hall as [|name names Hn _ IH]; intros lines; [reflexivity|].
    cbn [zip_loop]. destruct (ends_with name (py "/")); [apply IH|].
    destruct Hn as [Hn|Hn]; [discriminate|]. rewrite Hn. apply IH. }
  rewrite E. reflexivity.
Qed.

End ReaderMore.

(** ** The machine *)

Section WorkerMore.

Context {lib : PyLib}.
Variable args : launch.

(** A property that holds at the start and is kept by every step from a
    state satisfying [inv] holds in every reachable state. *)
Lemma reachable_ind (P : state -> Prop) :
  P (init args) ->
  (forall l s s', inv args s -> P s -> step args l s = Some s' -> P s') ->
  forall tr s, exec args tr (init args) = Some s -> P s.
Proof.
  intros H0 Hstep tr.
  assert (G : forall s0 s, inv args s0 -> P s0 ->
                           exec args tr s0 = Some s -> P s).
  { induction tr as [|l tr IH]; intros s0 s Hi Hp He; cbn in He.
    - congruence.
    - destruct (step args l s0) as [s1|] eqn:E; [|discriminate].
      eapply (IH s1); eauto using inv_step. }
  intros s. apply G; [apply inv_init|exact H0].
Qed.

Lemma lock_inv_step (l : label) (s s' : state) :
  lock_inv s -> step args l s = Some s' -> lock_inv s'.
Proof.
  intros [Hw Hh] Hstep. destruct s as [j lk pc hs].
  unfold lock_inv in *. cbn in *.
  destruct l as [now|r|i]; cbn in Hstep.
  - unfold worker_step in Hstep. cbn in Hstep.
    destruct pc; repeat case_match; simplify_eq/=;
      (split; [intros Hl; try discriminate; try reflexivity;
               try (specialize (Hw Hl); discriminate)
              |intros k Hl; try discriminate; eauto]).
  - injection Hstep as <-. cbn. split; [exact Hw|].
    intros k Hl. destruct (Hh k Hl) as (r' & pc' & Hk & Hc).
    exists r', pc'. split; [|exact Hc].
    rewrite lookup_app_l; [exact Hk|]. eapply lookup_lt_Some, Hk.
  - unfold handler_step in Hstep. cbn in Hstep.
    destruct (hs !! i) as [[r [| | |]]|] eqn:Hi; try discriminate.
    + destruct lk; [discriminate|]. simplify_eq/=.
      split; [discriminate|]. intros k Hl. injection Hl as <-.
      exists r, HFlag. split; [|reflexivity].
      apply list_lookup_insert_eq. eapply lookup_lt_Some, Hi.
    + simplify_eq/=. split; [exact Hw|]. intros k Hl.
      destruct (decide (k = i)) as [->|Hne].
      * exists r, HStatus. split; [|reflexivity].
        apply list_lookup_insert_eq. eapply lookup_lt_Some, Hi.
      * destruct (Hh k Hl) as (r' & pc' & Hk & Hc).
        exists r', pc'. split; [|exact Hc].
        rewrite list_lookup_insert_ne by congruence. exact Hk.
    + simplify_eq/=. split; discriminate.
Qed.

(** X11: mutual exclusion.  In every reachable state the job lock is
    held exactly by the thread that is inside its [with job['lock']]
    block, so the worker and a request thread are never inside together,
    nor are two request threads. *)
Theorem lock_mutual_exclusion (tr : list label) (s : state) :
  exec args tr (init args) = Some s ->
  (worker_in_lock (st_worker s) = true <-> st_lock s = Some OWorker)
  /\ (forall k,
        (exists r pc, st_handlers s !! k = Some (r, pc)
                      /\ handler_in_lock pc = true)
        <-> st_lock s = Some (OHandler k))
  /\ (forall k1 k2 r1 r2 pc1 pc2,
        st_handlers s !! k1 = Some (r1, pc1) -> handler_in_lock pc1 = true ->
        st_handlers s !! k2 = Some (r2, pc2) -> handler_in_lock pc2 = true ->
        k1 = k2)
  /\ (worker_in_lock (st_worker s) = true ->
      forall k r pc, st_handlers s !! k = Some (r, pc) ->
                     handler_in_lock pc = false).
Proof.
  intros Hexec.
  assert (Hl : lock_inv s).
  { revert tr s Hexec. apply reachable_ind.
    - split; [discriminate|]. intros k H. discriminate H.
    - intros l s s' _. apply lock_inv_step. }
  destruct (inv_reachable args tr s Hexec) as (_ & Hw & Hh).
  destruct Hl as [Lw Lh].
  assert (Wl : worker_in_lock (st_worker s) = true -> st_lock s = Some OWorker).
  { unfold worker_inv in Hw. destruct (st_worker s); try discriminate;
      intros _; tauto. }
  assert (Hl : forall k r pc, st_handlers s !! k = Some (r, pc) ->
                 handler_in_lock pc = true -> st_lock s = Some (OHandler k)).
  { intros k r pc Hk Hc. apply (Hh k r pc Hk).
    destruct pc; try discriminate; auto. }
  split; [split; auto|]. split; [|split].
  - intros k. split; [intros (r & pc & Hk & Hc); eauto|apply Lh].
  - intros k1 k2 r1 r2 pc1 pc2 H1 C1 H2 C2.
    pose proof (Hl _ _ _ H1 C1). pose proof (Hl _ _ _ H2 C2). congruence.
  - intros Hwl k r pc Hk.
    destruct (handler_in_lock pc) eqn:Hc; [|reflexivity].
    pose proof (Hl _ _ _ Hk Hc). pose proof (Wl Hwl). congruence.
Qed.

Lemma result_inv_step (l : label) (s s' : state) :
  inv args s -> result_inv args s -> step args l s = Some s' ->
  result_inv args s'.
Proof.
  intros (_ & Hw & _) Hr Hstep. destruct s as [j lk pc hs].
  unfold result_inv, worker_inv in *. cbn in *.
  destruct l as [now|r|i]; cbn in Hstep.
  - unfold worker_step in Hstep. cbn in Hstep.
    destruct pc; repeat case_match; simplify_eq/=;
      destruct_and?; try (split_and!; auto; fail).
    + split; [reflexivity|]. left.
      match goal with H : _ !! _ = None |- _ => apply lookup_ge_None in H end.
      assert (Hn : i = length (wordlist_lines args)) by lia.
      rewrite <- Hn. auto.
    + split; [reflexivity|]. right. eauto 12.
  - injection Hstep as <-. cbn. exact Hr.
  - unfold handler_step in Hstep. cbn in Hstep.
    repeat case_match; simplify_eq/=; exact Hr.
Qed.

Lemma result_reachable (tr : list label) (s : state) :
  exec args tr (init args) = Some s -> result_inv args s.
Proof.
  revert tr s. apply reachable_ind.
  - cbn. auto.
  - intros l s s'. apply result_inv_step.
Qed.


Lemma lookup_insert_keeps {A : Type} (hs : list A) (i k : nat) (x y z : A) :
  hs !! i = Some x -> x <> z -> hs !! k = Some z ->
  <[i := y]> hs !! k = Some z.
Proof.
  intros Hi Hne Hk. rewrite list_lookup_insert_ne; [exact Hk|].
  intros ->. congruence.
Qed.

Lemma origin_inv_step (l : label) (s s' : state) :
  origin_inv s -> step args l s = Some s' -> origin_inv s'.
Proof.
  intros (Hp & Hsp & Hsr & Ht) Hstep. destruct s as [j lk pc hs].
  unfold origin_inv in *. cbn in *.
  destruct l as [now|r|i]; cbn in Hstep.
  - unfold worker_step in Hstep. cbn in Hstep.
    destruct pc; repeat case_match; simplify_eq/=;
      split_and!; auto; try discriminate;
      intros Hx; first [congruence | specialize (Ht Hx); discriminate].
  - injection Hstep as <-. cbn.
    split_and!; [| | |exact Ht].
    + intros H. destruct (Hp H) as (k & pc' & Hk & Hc). exists k, pc'.
      split; [|exact Hc]. rewrite lookup_app_l; [exact Hk|].
      eapply lookup_lt_Some, Hk.
    + intros H. destruct (Hsp H) as (k & Hk). exists k.
      rewrite lookup_app_l; [exact Hk|]. eapply lookup_lt_Some, Hk.
    + intros H. destruct (Hsr H) as (k & Hk). exists k.
      rewrite lookup_app_l; [exact Hk|]. eapply lookup_lt_Some, Hk.
  - unfold handler_step in Hstep. cbn in Hstep.
    destruct (hs !! i) as [[r [| | |]]|] eqn:Hi; try discriminate.
    + destruct lk; [discriminate|]. simplify_eq/=.
      split_and!; [| | |exact Ht].
      * intros H. destruct (Hp H) as (k & pc' & Hk & Hc). exists k, pc'.
        split; [|exact Hc].
        eapply lookup_insert_keeps; [exact Hi| |exact Hk].
        destruct Hc; congruence.
      * intros H. destruct (Hsp H) as (k & Hk). exists k.
        eapply lookup_insert_keeps; [exact Hi| |exact Hk]. congruence.
      * intros H. destruct (Hsr H) as (k & Hk). exists k.
        eapply lookup_insert_keeps; [exact Hi| |exact Hk]. congruence.
    + simplify_eq/=. split_and!; [| | |exact Ht].
      * intros H. destruct r; [|discriminate].
        exists i, HStatus. split; [|auto].
        apply list_lookup_insert_eq. eapply lookup_lt_Some, Hi.
      * intros H. destruct (Hsp H) as (k & Hk). exists k.
        eapply lookup_insert_keeps; [exact Hi| |exact Hk]. congruence.
      * intros H. destruct (Hsr H) as (k & Hk). exists k.
        eapply lookup_insert_keeps; [exact Hi| |exact Hk]. congruence.
    + simplify_eq/=. split_and!.
      * intros H. destruct (Hp H) as (k & pc' & Hk & Hc).
        destruct (decide (k = i)) as [->|Hne].
        -- exists i, HDone. split; [|auto].
           rewrite Hi in Hk. injection Hk as <- <-.
           apply list_lookup_insert_eq. eapply lookup_lt_Some, Hi.
        -- exists k, pc'. split; [|exact Hc].
           rewrite list_lookup_insert_ne by congruence. exact Hk.
      * intros H. destruct r; [|discriminate]. exists i.
        apply list_lookup_insert_eq. eapply lookup_lt_Some, Hi.
      * intros H. destruct r; [discriminate|]. exists i.
        apply list_lookup_insert_eq. eapply lookup_lt_Some, Hi.
      * destruct r; discriminate.
Qed.

Lemma origin_reachable (tr : list label) (s : state) :
  exec args tr (init args) = Some s -> origin_inv s.
Proof.
  revert tr s. apply reachable_ind.
  - cbn. unfold origin_inv. cbn. split_and!; discriminate.
  - intros l s s' _. apply origin_inv_step.
Qed.

(** X13: where a status comes from.  In every reachable state the
    status is [running] only if a resume request has completed, [paused]
    only if a pause request has completed, and [completed] or
    [finished_no_match] only if the worker has returned.  A job that is
    never resumed is therefore never shown as running: it is [queued]
    while the worker goes through the list. *)
Theorem status_origin (tr : list label) (s : state) :
  exec args tr (init args) = Some s ->
  (status (st_job s) = Running ->
   exists k, st_handlers s !! k = Some (Resume, HDone))
  /\ (status (st_job s) = Paused ->
      exists k, st_handlers s !! k = Some (Pause, HDone))
  /\ (terminal (status (st_job s)) = true ->
      st_worker s = WDone /\ done (st_job s) = true)
  /\ (Forall (fun h => h.2 <> HDone) (st_handlers s) ->
      st_worker s <> WDone ->
      status (st_job s) = Queued).
Proof.
  intros Hexec. destruct (origin_reachable tr s Hexec) as (_ & Hsp & Hsr & Ht).
  split; [exact Hsr|]. split; [exact Hsp|]. split.
  - intros H. split; [apply Ht, H|].
    pose proof (result_reachable tr s Hexec) as Hr.
    unfold result_inv in Hr. rewrite (Ht H) in Hr. tauto.
  - intros Hall Hpc. rewrite List.Forall_forall in Hall.
    destruct (status (st_job s)) eqn:Est; auto.
    + destruct (Hsr eq_refl) as (k & Hk).
      apply list_elem_of_lookup_2, list_elem_of_In in Hk.
      apply Hall in Hk. cbn in Hk. congruence.
    + destruct (Hsp eq_refl) as (k & Hk).
      apply list_elem_of_lookup_2, list_elem_of_In in Hk.
      apply Hall in Hk. cbn in Hk. congruence.
    + exfalso. apply Hpc, Ht. reflexivity.
    + exfalso. apply Hpc, Ht. reflexivity.
Qed.

(** X14: the worker waits only for a pause.  In every reachable state,
    if the worker is in its pause loop then the pause flag is set and
    some pause request has written it; when no pause request has come
    in, the flag is clear and the worker is not waiting. *)
Theorem pause_loop_origin (tr : list label) (s : state) :
  exec args tr (init args) = Some s ->
  (forall i, st_worker s = WSpin i ->
             paused (st_job s) = true
             /\ exists k pc, st_handlers s !! k = Some (Pause, pc)
                             /\ (pc = HStatus \/ pc = HDone))
  /\ (Forall (fun h => h.1 = Resume) (st_handlers s) ->
      paused (st_job s) = false /\ forall i, st_worker s <> WSpin i).
Proof.
  intros Hexec. destruct (origin_reachable tr s Hexec) as (Hp & _).
  destruct (inv_reachable args tr s Hexec) as (_ & Hw & _).
  assert (Hspin : forall i, st_worker s = WSpin i -> paused (st_job s) = true).
  { intros i Hi. unfold worker_inv in Hw. rewrite Hi in Hw. tauto. }
  split.
  - intros i Hi. split; [eauto|]. apply Hp. eauto.
  - intros Hall. rewrite List.Forall_forall in Hall.
    assert (Hf : paused (st_job s) = false).
    { destruct (paused (st_job s)) eqn:E; [|reflexivity].
      destruct (Hp eq_refl) as (k & pc & Hk & _).
      apply list_elem_of_lookup_2, list_elem_of_In in Hk.
      apply Hall in Hk. discriminate Hk. }
    split; [exact Hf|]. intros i Hi. rewrite (Hspin i Hi) in Hf. discriminate.
Qed.







Lemma frozen_step (p0 : nat) (l : label) (s s' : state) :
  inv args s -> frozen p0 s -> l <> Arrive Resume ->
  step args l s = Some s' -> frozen p0 s'.
Proof.
  intros (_ & Hw & _) (Hp & Hres & Hcount) Hl Hstep.
  destruct s as [j lk pc hs]. unfold frozen, worker_inv in *. cbn in *.
  destruct l as [now|r|i]; cbn in Hstep.
  - unfold worker_step in Hstep. cbn in Hstep.
    destruct pc; repeat case_match; simplify_eq/=;
      (split_and!; [assumption|assumption|]);
      destruct_and?;
      try (destruct Hcount as [Hc|[Hc Hb]];
           [ first [ left; lia | right; split; [lia|discriminate] ]
           | first [ right; split; [lia|discriminate]
                   | exfalso; eapply Hb; reflexivity
                   | left; lia ] ]; fail).
  - destruct r; [|congruence]. injection Hstep as <-. cbn.
    split_and!; [assumption| |assumption].
    apply Forall_app. split; [assumption|].
    constructor; [discriminate|constructor].
  - unfold handler_step in Hstep. cbn in Hstep.
    destruct (hs !! i) as [[r pci]|] eqn:Hi; [|discriminate].
    assert (Hr : pci <> HDone -> r = Pause).
    { intros Hne. rewrite List.Forall_forall in Hres.
      apply list_elem_of_lookup_2, list_elem_of_In in Hi.
      specialize (Hres _ Hi). cbn in Hres.
      destruct r; [reflexivity|]. exfalso. apply Hne, Hres. reflexivity. }
    destruct pci; try discriminate;
      rewrite (Hr ltac:(discriminate)) in *;
      repeat case_match; simplify_eq/=;
      (split_and!; [auto| |assumption]);
      apply Forall_insert; auto; discriminate.
Qed.

Lemma frozen_exec (p0 : nat) (tr : list label) :
  Forall (fun l => l <> Arrive Resume) tr ->
  forall s s', inv args s -> frozen p0 s -> exec args tr s = Some s' ->
               frozen p0 s'.
Proof.
  induction 1 as [|l tr Hl _ IH]; intros s s' Hinv F He; cbn in He.
  - injection He as <-. exact F.
  - destruct (step args l s) as [s1|] eqn:E; [|discriminate].
    apply (IH s1); [eapply inv_step; eauto| |exact He].
    eapply frozen_step; eauto.
Qed.

(** X17: what a pause does reach.  From a reachable state in which the
    pause flag is set and no resume request is under way, and as long as
    no resume request comes in, the flag stays set and [processed] grows
    by at most one: the candidate the worker had already passed its check
    for is counted, then the worker waits. *)
Theorem pause_freezes (tr1 tr2 : list label) (s1 s2 : state) :
  exec args tr1 (init args) = Some s1 ->
  paused (st_job s1) = true ->
  Forall (fun h => h.1 = Resume -> h.2 = HDone) (st_handlers s1) ->
  Forall (fun l => l <> Arrive Resume) tr2 ->
  exec args tr2 s1 = Some s2 ->
  paused (st_job s2) = true
  /\ processed (st_job s1) <= processed (st_job s2)
  /\ processed (st_job s2) <= S (processed (st_job s1)).
Proof.
  intros H1 Hp Hres Htr H2.
  pose proof (inv_reachable args tr1 s1 H1) as Hinv.
  assert (G : frozen (processed (st_job s1)) s2).
  { eapply frozen_exec; [exact Htr|exact Hinv| |exact H2].
    split_and!; auto. }
  destruct G as (Gp & _ & Gc).
  split; [exact Gp|]. split; [eapply processed_exec; eauto|].
  destruct Gc as [->|[-> _]]; lia.
Qed.

(** X18: a request that finds the lock free runs to its end.  From any
    state with the lock free, a pause (or resume) request sets the pause
    flag (or clears it), sets the status to [paused] (or [running]),
    changes no other field of the job nor the worker's position, releases
    the lock and has nothing more to do. *)
Theorem request_completes (r : req_kind) (s : state) :
  st_lock s = None ->
  let n := length (st_handlers s) in
  exists s',
    exec args [Arrive r; Handler n; Handler n; Handler n] s = Some s'
    /\ st_job s'
       = job_set_status (status_of r) (job_set_paused (flag_of r) (st_job s))
    /\ st_lock s' = None
    /\ st_worker s' = st_worker s
    /\ st_handlers s' = st_handlers s ++ [(r, HDone)]
    /\ step args (Handler n) s' = None.
Proof.
  intros Hl n. destruct s as [j lk pc hs]. cbn in *. subst lk n.
  assert (L : forall x : req_kind * hpc, (hs ++ [x]) !! length hs = Some x)
    by (intros x; apply list_lookup_middle; reflexivity).
  assert (I : forall x y : req_kind * hpc,
             <[length hs := y]> (hs ++ [x]) = hs ++ [y]).
  { intros x y. rewrite insert_app_r_alt by lia.
    rewrite Nat.sub_diag. reflexivity. }
  unfold handler_step. cbn. rewrite L. cbn. rewrite I, L. cbn.
  rewrite I, L. cbn. rewrite I. eexists. split; [reflexivity|]. cbn.
  rewrite L. auto.
Qed.

End WorkerMore.

(** *** The properties on the sample jobs *)

#[local] Existing Instance toy_lib.



Lemma processed_bounded_monotone_witness :
  exists s1 s2,
    exec args_found [Worker 0%Q; Arrive Pause; Worker 1%Q; Worker 2%Q;
                     Handler 0; Worker 3%Q] (init args_found) = Some s1
    /\ exec args_found [Handler 0; Worker 4%Q; Handler 0; Worker 5%Q;
                        Worker 6%Q] s1 = Some s2
    /\ 0 <= processed (st_job s1)
    /\ processed (st_job s1) <= total (st_job s1)
    /\ processed (st_job s1) <= processed (st_job s2)
    /\ processed (st_job s2) <= total (st_job s2).
Proof.
  eexists. eexists. split; [reflexivity|]. split; [reflexivity|].
  eapply (@processed_bounded_monotone toy_lib args_found
            [Worker 0%Q; Arrive Pause; Worker 1%Q; Worker 2%Q; Handler 0;
             Worker 3%Q]
            [Handler 0; Worker 4%Q; Handler 0; Worker 5%Q; Worker 6%Q]);
    reflexivity.
Defined.

Lemma status_changes_witness :
  exists s s',
    exec args_empty pause_after_finish (init args_empty) = Some s
    /\ step args_empty (Handler 0) s = Some s'
    /\ (status (st_job s') = status (st_job s)
        \/ (exists now, Handler 0 = Worker now /\ st_worker s' = WDone
                        /\ terminal (status (st_job s')) = true
                        /\ done (st_job s') = true)
        \/ (exists i r, Handler 0 = Handler i
                        /\ st_handlers s !! i = Some (r, HStatus)
                        /\ status (st_job s') = status_of r)).
Proof.
  eexists. eexists. split; [reflexivity|]. split; [reflexivity|].
  refine (proj1 (@status_changes toy_lib args_empty (Handler 0) _ _ _)).
  reflexivity.
Defined.

(** C4 as stated fails twice: while the worker iterates the status is
    still [queued], not [running]; and a pause request that arrives after
    the worker has finished moves the status from [finished_no_match] to
    [paused]. *)
Lemma pause_after_finish_counterexample :
  (exists s,
      exec args_one (alone [0; 1; 2]%Q) (init args_one) = Some s
      /\ st_worker s = WBody 0
      /\ status (st_job s) = Queued)
  /\ (exists s s',
        exec args_empty pause_after_finish (init args_empty) = Some s
        /\ status (st_job s) = FinishedNoMatch
        /\ step args_empty (Handler 0) s = Some s'
        /\ status (st_job s') = Paused).
Proof.
  split.
  - eexists. repeat split.
  - eexists. eexists. repeat split.
Qed.

Lemma pause_loop_never_ends_witness :
  exists s1 s2,
    exec args_one pause_then_resume (init args_one) = Some s1
    /\ st_worker s1 = WSpin 0
    /\ exec args_one [Worker 2%Q; Arrive Resume; Worker 3%Q] s1 = Some s2
    /\ st_worker s2 = WSpin 0
    /\ st_lock s2 = Some OWorker
    /\ paused (st_job s2) = true
    /\ processed (st_job s2) = processed (st_job s1)
    /\ st_job s2 = st_job s1
    /\ exists extra, st_handlers s2 = st_handlers s1 ++ extra
                     /\ Forall (fun h => h.2 = HWait) extra.
Proof.
  eexists. eexists. split; [reflexivity|]. split; [reflexivity|].
  split; [reflexivity|].
  eapply (@pause_loop_never_ends toy_lib args_one 0 pause_then_resume
            [Worker 2%Q; Arrive Resume; Worker 3%Q]);
    reflexivity.
Defined.

(** The failing run of C5: the job is paused before the worker's first
    check; the worker enters the pause loop with the lock; the resume
    request that follows cannot take the lock, so it cannot step. *)
Example resume_blocked :
  exists s,
    exec args_one pause_then_resume (init args_one) = Some s
    /\ st_worker s = WSpin 0
    /\ st_lock s = Some OWorker
    /\ st_handlers s !! 1 = Some (Resume, HWait)
    /\ step args_one (Handler 1) s = None
    /\ processed (st_job s) = 0.
Proof. eexists. repeat split. Qed.

(** *** The further properties on the samples *)


Lemma extract_roll_ignores_tail_witness :
  extract_roll_from_hmac (py "fffffeeeee" ++ py "12")
  = extract_roll_from_hmac (py "fffffeeeee").
Proof.
  apply (extract_roll_ignores_tail (py "fffffeeeee") (py "12")).
  - reflexivity.
  - vm_compute. lia.
Defined.

Lemma dice_message_injective_witness :
  py "a:1" = py "a:1" /\ 2%Z = 2%Z.
Proof.
  apply (dice_message_injective (py "a:1") (py "a:1") 2 2). reflexivity.
Defined.

Lemma calculate_dice_roll_range_witness :
  exists k : Z,
    (0 <= k < 10000)%Z
    /\ calculate_dice_roll (py "ba") (py "seed") 7 = Some (inject_Z k / 100)%Q
    /\ calculate_dice_roll (py "ba") (py "seed") 7
       = extract_roll_from_hmac (toy_hex (py "seed:7ba")).
Proof.
  apply (@calculate_dice_roll_range toy_lib (py "ba") (py "seed")
           (toy_hex (py "seed:7ba")) 7); reflexivity.
Defined.

Lemma decode_text_ascii_witness :
  decode_text (list_byte_of_string "zz") = map Byte.to_N (list_byte_of_string "zz").
Proof.
  apply (decode_text_ascii (list_byte_of_string "zz")).
  repeat (constructor; [reflexivity|]). constructor.
Defined.

Lemma start_process_candidates_clean_witness :
  Forall (fun c => clean_candidate c /\ strip c = c)
         [py "zz"; py "ba"; py "cc"].
Proof.
  refine (@start_process_candidates_clean toy_lib inline_request (py "id-1")
            ∅ _ _ {| job_id := py "id-1";
                     wordlist_lines := [py "zz"; py "ba"; py "cc"];
                     target_hash := py "6162"; client_seed := py "seed";
                     nonce := 7%Z; max_speed := 20000%Z |} _).
  reflexivity.
Defined.

Lemma read_plain_text_as_inline_witness :
  @read_wordlist_from_file toy_lib text_upload
  = Returned (inline_lines (decode_text (list_byte_of_string "zz
  ba  

cc"))).
Proof.
  apply (@read_plain_text_as_inline toy_lib text_upload); reflexivity.
Defined.


Lemma read_gz_fallback_witness :
  @read_wordlist_from_file toy_lib damaged_gz_upload
  = Returned (inline_lines (decode_text (list_byte_of_string "zz
ba"))).
Proof.
  apply (@read_gz_fallback toy_lib damaged_gz_upload); reflexivity.
Defined.

Lemma read_zip_nothing_readable_witness :
  @read_wordlist_from_file hollow_zip_lib sample_zip_upload = Returned [].
Proof.
  apply (@read_zip_nothing_readable hollow_zip_lib sample_zip_upload
           hollow_archive).
  - reflexivity.
  - reflexivity.
  - constructor; [left; reflexivity|].
    constructor; [right; reflexivity|constructor].
Defined.

Lemma sample_candidates_clean :
  Forall clean_candidate [py "zz"; py "b a"; py "zz"].
Proof.
  repeat (constructor;
          [repeat split; try discriminate;
           try (intros a H; injection H as <-; reflexivity);
           repeat (constructor; [reflexivity|]); constructor|]).
  constructor.
Qed.

Lemma inline_lines_join_witness :
  inline_lines (join_lines [py "zz"; py "b a"; py "zz"])
  = [py "zz"; py "b a"; py "zz"].
Proof.
  apply (inline_lines_join [py "zz"; py "b a"; py "zz"]).
  apply sample_candidates_clean.
Defined.


Lemma lock_mutual_exclusion_witness :
  exists s,
    exec args_found pause_in_flight (init args_found) = Some s
    /\ (worker_in_lock (st_worker s) = true <-> st_lock s = Some OWorker).
Proof.
  eexists. split; [reflexivity|].
  refine (proj1 (@lock_mutual_exclusion toy_lib args_found pause_in_flight
                   _ _)).
  reflexivity.
Defined.


Lemma status_origin_witness :
  exists s,
    exec args_found pause_in_flight (init args_found) = Some s
    /\ (status (st_job s) = Running ->
        exists k, st_handlers s !! k = Some (Resume, HDone)).
Proof.
  eexists. split; [reflexivity|].
  refine (proj1 (@status_origin toy_lib args_found pause_in_flight _ _)).
  reflexivity.
Defined.

Lemma pause_loop_origin_witness :
  exists s,
    exec args_one pause_then_resume (init args_one) = Some s
    /\ forall i, st_worker s = WSpin i ->
                 paused (st_job s) = true
                 /\ exists k pc, st_handlers s !! k = Some (Pause, pc)
                                 /\ (pc = HStatus \/ pc = HDone).
Proof.
  eexists. split; [reflexivity|].
  refine (proj1 (@pause_loop_origin toy_lib args_one pause_then_resume _ _)).
  reflexivity.
Defined.



Lemma pause_freezes_witness :
  exists s1 s2,
    exec args_found pause_in_flight (init args_found) = Some s1
    /\ exec args_found [Worker 3%Q; Worker 4%Q; Worker 5%Q; Worker 6%Q;
                        Arrive Pause; Worker 7%Q] s1 = Some s2
    /\ paused (st_job s2) = true
    /\ processed (st_job s1) <= processed (st_job s2)
    /\ processed (st_job s2) <= S (processed (st_job s1)).
Proof.
  eexists. eexists. split; [reflexivity|]. split; [reflexivity|].
  eapply (@pause_freezes toy_lib args_found pause_in_flight
            [Worker 3%Q; Worker 4%Q; Worker 5%Q; Worker 6%Q;
             Arrive Pause; Worker 7%Q]).
  - reflexivity.
  - reflexivity.
  - repeat constructor; discriminate.
  - repeat (constructor; [discriminate|]). constructor.
  - reflexivity.
Defined.

Lemma request_completes_witness :
  exists s',
    exec args_found [Arrive Resume; Handler 0; Handler 0; Handler 0]
         (init args_found) = Some s'
    /\ st_job s'
       = job_set_status Running (job_set_paused false (st_job (init args_found)))
    /\ st_lock s' = None
    /\ st_worker s' = WStart
    /\ st_handlers s' = [(Resume, HDone)]
    /\ step args_found (Handler 0) s' = None.
Proof.
  apply (@request_completes toy_lib args_found Resume (init args_found)).
  reflexivity.
Defined.
